(** * Transcription worker: the job registry and the job pipeline

    A shallow embedding of [src/index.js]: the in-memory registry [jobs], the
    request handlers [app.post('/transcribe')] and [app.get('/job/:jobId')],
    and the background pipeline [processTranscription].

    The handlers are written as programs over the events they perform
    (registry operations, clock reads, awaited I/O, timers, responses), and an
    interpreter [run] executes a program against a registry state and a
    [world] that answers the external events. *)

From stdpp Require Import gmap strings list fin_maps pretty.
From Stdlib Require Import ZArith.

Local Open Scope string_scope.
Local Open Scope Z_scope.

(** ** JavaScript values *)

(** The values that occur in request bodies, job records and provider
    answers.  [VNum] holds an integer-valued number of magnitude below
    10^21, [VObject] a plain object (one that inherits [toString] from
    [Object.prototype]).  Arrays, other numbers and objects with a
    [toString] or [valueOf] of their own are not among these values. *)
Inductive value : Type :=
| VUndefined
| VNull
| VBool (b : bool)
| VNum (n : Z)
| VStr (s : string)
| VObject.

#[global] Instance value_eq_dec : EqDecision value.
Proof. solve_decision. Defined.

(** ToBoolean, as used by [if (!url)] and [if (callbackUrl)]. *)
Definition truthy (v : value) : bool :=
  match v with
  | VUndefined | VNull => false
  | VBool b => b
  | VNum n => negb (Z.eqb n 0)
  | VStr s => negb (String.eqb s EmptyString)
  | VObject => true
  end.

(** ToString, as used by template literals, on the values above. *)
Definition to_string (v : value) : string :=
  match v with
  | VUndefined => "undefined"
  | VNull => "null"
  | VBool true => "true"
  | VBool false => "false"
  | VNum n => pretty n
  | VStr s => s
  | VObject => "[object Object]"
  end.

(** A JavaScript object with string keys: job records, response bodies and
    callback payloads. *)
Abbreviation record := (gmap string value).

(** Object literal [{ k1: v1, ..., kn: vn }] with distinct keys. *)
Definition object (fields : list (string * value)) : record := list_to_map fields.

(** [{ ...o }] where [o] may be [undefined]: spreading [undefined] adds
    no property. *)
Definition spread (o : option record) : record := default ∅ o.

(** [{ ...o, ...patch }]: the properties of [patch] override those of [o]. *)
Definition merge (o : option record) (patch : record) : record := patch ∪ spread o.

(** Property read [o.k]; a missing property reads as [undefined]. *)
Definition prop (o : record) (k : string) : value := default VUndefined (o !! k).

(** An [Error] object, identified by its [message]. *)
Record exn : Type := Error { message : string }.

(** What [assemblyai.transcripts.transcribe] resolves to: the fields of the
    transcript that the pipeline reads. *)
Record transcript : Type := Transcript {
  status : string;
  text : value;
  error : value
}.

(** ** Events *)

(** The callback passed to [setTimeout] (index.js:196-198):
    [() => { jobs.delete(jobId); }]. *)
Inductive callback : Type :=
| DeleteJob (jobId : string).

(** Awaited operations; each one either resolves with a value or rejects with
    an [Error]. *)
Inductive io : Type -> Type :=
| Mkdir (path : string) (recursive : bool) : io unit
| Exec (command : string) (timeout : Z) : io unit
| Access (path : string) : io unit
| Readdir (path : string) : io (list string)
| Rm (path : string) (recursive force : bool) : io unit
| Transcribe (audio : string) (speech_models : list string) : io transcript
| Fetch (url : value) (method : string) (body : record) : io unit.

Inductive event : Type -> Type :=
(* the module-level Map [jobs] *)
| JobsGet (jobId : string) : event (option record)
| JobsSet (jobId : string) (r : record) : event unit
| JobsDelete (jobId : string) : event unit
(* timers and output *)
| SetTimeout (cb : callback) (delay : Z) : event unit
| Respond (code : Z) (body : record) : event unit
| ConsoleLog (line : string) : event unit
| ConsoleError (line : string) : event unit
(* clock and randomness *)
| DateNow : event Z
| MathRandom36 : event string
| NewDateISO : event string
(* [await e] *)
| Await {X : Type} (e : io X) : event (exn + X).

(** ** Programs *)

Inductive prog (R : Type) : Type :=
| Ret (r : R)
| Throw (e : exn)
| Vis {X : Type} (e : event X) (k : X -> prog R).

Arguments Ret {R} r.
Arguments Throw {R} e.
Arguments Vis {R X} e k.

Fixpoint bind {A B : Type} (p : prog A) (f : A -> prog B) : prog B :=
  match p with
  | Ret a => f a
  | Throw e => Throw e
  | Vis e k => Vis e (fun x => bind (k x) f)
  end.

#[global] Instance prog_ret : MRet prog := @Ret.
#[global] Instance prog_bind : MBind prog := fun A B f p => bind p f.

(** [try { p } catch (e) { h e }] *)
Fixpoint try_catch {A : Type} (p : prog A) (h : exn -> prog A) : prog A :=
  match p with
  | Ret a => Ret a
  | Throw e => h e
  | Vis e k => Vis e (fun x => try_catch (k x) h)
  end.

(** [try { p } finally { f }]: [f] runs on both exits of [p]; when [f]
    itself throws, that exception replaces the result of [p]. *)
Fixpoint try_finally {A : Type} (p : prog A) (f : prog unit) : prog A :=
  match p with
  | Ret a => bind f (fun _ => Ret a)
  | Throw e => bind f (fun _ => Throw e)
  | Vis e k => Vis e (fun x => try_finally (k x) f)
  end.

Definition trigger {X : Type} (e : event X) : prog X := Vis e Ret.

(** [await e]: a rejection is thrown at the point of the [await]. *)
Definition await {X : Type} (e : io X) : prog X :=
  Vis (Await e) (fun r => match r with inl err => Throw err | inr x => Ret x end).

(** [if (c) { p }] *)
Definition when (c : bool) (p : prog unit) : prog unit :=
  if c then p else Ret tt.

(** ** The handlers of [src/index.js] *)

Definition jobs_get (jobId : string) : prog (option record) := trigger (JobsGet jobId).
Definition jobs_set (jobId : string) (r : record) : prog unit := trigger (JobsSet jobId r).
Definition jobs_delete (jobId : string) : prog unit := trigger (JobsDelete jobId).
Definition set_timeout (cb : callback) (delay : Z) : prog unit := trigger (SetTimeout cb delay).
Definition respond (code : Z) (body : record) : prog unit := trigger (Respond code body).
Definition console_log (line : string) : prog unit := trigger (ConsoleLog line).
Definition console_error (line : string) : prog unit := trigger (ConsoleError line).
Definition date_now : prog Z := trigger DateNow.
Definition math_random36 : prog string := trigger MathRandom36.
Definition new_date_iso : prog string := trigger NewDateISO.

(** The registry update idiom of the pipeline (index.js:78-82, 90-93,
    121-124): [jobs.set(jobId, { ...jobs.get(jobId), ...patch })]. *)
Definition jobs_update (jobId : string) (patch : record) : prog unit :=
  old ← jobs_get jobId;
  jobs_set jobId (merge old patch).

(** [path.join(dir, name)] for a normalised directory path (no trailing
    slash, no empty, [.] or [..] segment) and a plain file name, which is how
    the pipeline calls it for an id without a slash: the result is then the
    concatenation. *)
Definition path_join (dir name : string) : string := dir +:+ "/" +:+ name.

Definition dquote : string := String (Ascii.ascii_of_nat 34) EmptyString.

(** The shell command of index.js:99. *)
Definition ytdlp_command (tempDir : string) (url : value) : string :=
  "yt-dlp -x --audio-format mp3 --audio-quality 0 -o "
  +:+ dquote +:+ path_join tempDir "audio.%(ext)s" +:+ dquote
  +:+ " " +:+ dquote +:+ to_string url +:+ dquote.

(** [f.endsWith(suffix)] *)
Definition endsWith (f suffix : string) : bool :=
  (String.length suffix <=? String.length f)%nat
  && String.eqb
       (String.substring (String.length f - String.length suffix) (String.length suffix) f)
       suffix.

(** The predicate of the fallback scan (index.js:112). *)
Definition is_audio (f : string) : bool :=
  endsWith f ".mp3" || endsWith f ".m4a" || endsWith f ".wav".

(** [v.length]: reading a property of [undefined] or [null] throws a
    TypeError (the message is V8's); a string has its length, any other
    value has no such property.  The length is the one of the embedding's
    strings, which agrees with JavaScript's on ASCII text; it only shows in
    the success log line. *)
Definition length_of (v : value) : prog value :=
  match v with
  | VUndefined => Throw (Error "Cannot read properties of undefined (reading 'length')")
  | VNull => Throw (Error "Cannot read properties of null (reading 'length')")
  | VStr s => Ret (VNum (Z.of_nat (String.length s)))
  | _ => Ret VUndefined
  end.

(** Step 3 of the pipeline (index.js:149-160 and 176-186): the outbound
    notification, inside its own try/catch. *)
Definition post_callback (callbackUrl : value) (payload : record)
    (on_sent : prog unit) (on_error : exn -> prog unit) : prog unit :=
  when (truthy callbackUrl)
    (try_catch
       (await (Fetch callbackUrl "POST" payload);;
        on_sent)
       on_error).

(** index.js:74-200. *)
Definition processTranscription (jobId : string) (url callbackUrl : value) : prog unit :=
  let tempDir := "/tmp/transcribe_" +:+ jobId in
  (* Update job status *)
  old ← jobs_get jobId;
  startedAt ← new_date_iso;
  jobs_set jobId (merge old (object [("status", VStr "processing");
                                     ("startedAt", VStr startedAt)]));;
  try_finally
    (try_catch
       (await (Mkdir tempDir true);;
        (* Step 1: Download video with yt-dlp and extract audio *)
        console_log ("[" +:+ jobId +:+ "] Downloading: " +:+ to_string url);;
        jobs_update jobId (object [("status", VStr "downloading")]);;
        let audioPath := path_join tempDir "audio.mp3" in
        try_catch
          (await (Exec (ytdlp_command tempDir url) 300000))
          (fun downloadError =>
             Throw (Error ("Download failed: " +:+ message downloadError)));;
        (* Check if audio file was created *)
        try_catch
          (await (Access audioPath))
          (fun _ =>
             (* Try to find any audio file in temp dir *)
             files ← await (Readdir tempDir);
             let audioFile := find is_audio files in
             if audioFile is None
             then Throw (Error "Audio file was not created. Video may be private or unavailable.")
             else Ret tt);;
        (* Step 2: Transcribe with AssemblyAI *)
        console_log ("[" +:+ jobId +:+ "] Transcribing with AssemblyAI...");;
        jobs_update jobId (object [("status", VStr "transcribing")]);;
        transcript ← await (Transcribe audioPath ["universal-2"]);
        (if String.eqb (status transcript) "error"
         then Throw (Error ("AssemblyAI error: " +:+ to_string (error transcript)))
         else Ret tt);;
        completedAt ← new_date_iso;
        let result := object [("jobId", VStr jobId);
                              ("url", url);
                              ("transcript", text transcript);
                              ("status", VStr "completed");
                              ("completedAt", VStr completedAt)] in
        (* Update job with result *)
        jobs_set jobId result;;
        len ← length_of (text transcript);
        console_log ("[" +:+ jobId +:+ "] Success: " +:+ to_string len +:+ " chars");;
        (* Step 3: Send result to callback if provided *)
        post_callback callbackUrl result
          (console_log ("[" +:+ jobId +:+ "] Callback sent to " +:+ to_string callbackUrl))
          (fun callbackError =>
             console_error ("[" +:+ jobId +:+ "] Callback failed: "
                            +:+ message callbackError)))
       (fun error =>
          console_error ("[" +:+ jobId +:+ "] Error: " +:+ message error);;
          failedAt ← new_date_iso;
          let errorResult := object [("jobId", VStr jobId);
                                     ("url", url);
                                     ("error", VStr (message error));
                                     ("status", VStr "failed");
                                     ("failedAt", VStr failedAt)] in
          jobs_set jobId errorResult;;
          (* Send error to callback if provided *)
          post_callback callbackUrl errorResult
            (Ret tt)
            (fun callbackError =>
               console_error ("[" +:+ jobId +:+ "] Error callback failed: "
                              +:+ message callbackError))))
    ((* Cleanup temp directory *)
     try_catch (await (Rm tempDir true true)) (fun _ => Ret tt);;
     (* Clean up old jobs after 1 hour *)
     set_timeout (DeleteJob jobId) (60 * 60 * 1000)).

(** index.js:44-72.  [body] is [req.body], the parsed JSON object. *)
Definition post_transcribe (body : record) : prog unit :=
  let url := prop body "url" in
  let callbackUrl := prop body "callbackUrl" in
  if negb (truthy url) then
    respond 400 (object [("error", VStr "URL required")])
  else
    (* Generate job ID *)
    ms ← date_now;
    rnd ← math_random36;
    let jobId := "job_" +:+ pretty ms +:+ "_" +:+ String.substring 2 9 rnd in
    (* Initialize job status *)
    createdAt ← new_date_iso;
    jobs_set jobId (object [("jobId", VStr jobId);
                            ("url", url);
                            ("status", VStr "queued");
                            ("createdAt", VStr createdAt)]);;
    (* Respond immediately with job ID *)
    respond 200 (object [("status", VStr "queued");
                         ("jobId", VStr jobId);
                         ("url", url);
                         ("message", VStr "Job queued for processing")]);;
    (* Process in background *)
    processTranscription jobId url callbackUrl.

(** index.js:32-41. *)
Definition get_job (jobId : string) : prog unit :=
  job ← jobs_get jobId;
  match job with
  | None => respond 404 (object [("error", VStr "Job not found")])
  | Some job => respond 200 job
  end.

(** ** The registry state and the world *)

(** The shared state of the process: the registry [jobs], the pending
    timers (due time and callback, in the order they were set) and the timer
    clock in milliseconds. *)
Record state : Type := State {
  jobs : gmap string record;
  timers : list (Z * callback);
  now : Z
}.

(** What the other requests and pipelines of the process do to the shared
    state while a program is suspended at an [await]. *)
Inductive action : Type :=
| OtherSet (jobId : string) (r : record)
| OtherDelete (jobId : string)
| OtherTimeout (cb : callback) (delay : Z).

(** The world answers the external events.  Answers are indexed by the
    number of answers given so far, so that two occurrences of one event may
    be answered differently. *)
Record world : Type := World {
  clock_ms : nat -> Z;                          (* Date.now() *)
  random36 : nat -> string;                     (* Math.random().toString(36) *)
  clock_iso : nat -> string;                    (* new Date().toISOString() *)
  settle : nat -> forall X : Type, io X -> exn + X;  (* the settlement of an awaited promise *)
  delay : nat -> Z;                             (* time that passes during an await *)
  others : nat -> list action                   (* what the rest of the process does meanwhile *)
}.

Definition callback_target (cb : callback) : string :=
  match cb with DeleteJob jobId => jobId end.

Definition action_target (a : action) : string :=
  match a with
  | OtherSet jobId _ => jobId
  | OtherDelete jobId => jobId
  | OtherTimeout cb _ => callback_target cb
  end.

(** Node clamps a [setTimeout] delay outside 1..2^31-1 to 1. *)
Definition timer_delay (d : Z) : Z :=
  if (d <? 1) || (2147483647 <? d) then 1 else d.

(** [jobs.set(jobId, r)] *)
Definition set_job (jobId : string) (r : record) (s : state) : state :=
  State (<[jobId := r]> (jobs s)) (timers s) (now s).

(** [jobs.delete(jobId)] *)
Definition delete_job (jobId : string) (s : state) : state :=
  State (delete jobId (jobs s)) (timers s) (now s).

(** [setTimeout(cb, d)] *)
Definition add_timer (cb : callback) (d : Z) (s : state) : state :=
  State (jobs s) (timers s ++ [(now s + timer_delay d, cb)]) (now s).

Definition run_callback (cb : callback) (s : state) : state :=
  match cb with
  | DeleteJob jobId => delete_job jobId s
  end.

Definition apply_action (s : state) (a : action) : state :=
  match a with
  | OtherSet jobId r => set_job jobId r s
  | OtherDelete jobId => delete_job jobId s
  | OtherTimeout cb d => add_timer cb d s
  end.

Definition is_due (t : Z) (tm : Z * callback) : bool := tm.1 <=? t.

(** The timers phase of the event loop: every timer whose due time has been
    reached is removed and its callback run. *)
Definition fire (s : state) (tm : Z * callback) : state := run_callback tm.2 s.

Definition fire_due (s : state) : state :=
  foldl fire
        (State (jobs s) (List.filter (fun tm => negb (is_due (now s) tm)) (timers s)) (now s))
        (List.filter (is_due (now s)) (timers s)).

(** The process while a program is suspended: time passes, the other
    handlers run, and the timers that became due fire. *)
Definition pass (d : Z) (acts : list action) (s : state) : state :=
  fire_due (foldl apply_action (State (jobs s) (timers s) (now s + Z.max 0 d)) acts).

Definition elapse (w : world) (n : nat) (s : state) : state :=
  pass (delay w n) (others w n) s.

(** ** The interpreter *)

(** An event that was performed, with its answer. *)
Inductive entry : Type :=
| Did {X : Type} (e : event X) (x : X).

(** The result of running a program: every event performed with the state
    right after it, how the program ended, the number of world answers
    consumed, and the final state. *)
Record result (St R : Type) : Type := Result {
  trace : list (entry * St);
  outcome : exn + R;
  steps : nat;
  final : St
}.

Arguments Result {St R} _ _ _ _.
Arguments trace {St R} _.
Arguments outcome {St R} _.
Arguments steps {St R} _.
Arguments final {St R} _.

Section Interp.
Context {St : Type}.

(** The meaning of one event: its answer, the number of world answers
    consumed so far, and the new state. *)
Variable h : nat -> forall X : Type, event X -> St -> X * nat * St.

Fixpoint interp {R : Type} (p : prog R) (n : nat) (s : St) : result St R :=
  match p with
  | Ret r => Result [] (inr r) n s
  | Throw e => Result [] (inl e) n s
  | Vis e k =>
      let '(x, n', s') := h n _ e s in
      let r := interp (k x) n' s' in
      Result ((Did e x, s') :: trace r) (outcome r) (steps r) (final r)
  end.
End Interp.

(** The events on the shared state of the process. *)
Definition handle (w : world) (n : nat) (X : Type) (e : event X) (s : state)
    : X * nat * state :=
  match e in event X return X * nat * state with
  | JobsGet jobId => (jobs s !! jobId, n, s)
  | JobsSet jobId r => (tt, n, set_job jobId r s)
  | JobsDelete jobId => (tt, n, delete_job jobId s)
  | SetTimeout cb d => (tt, n, add_timer cb d s)
  | Respond _ _ => (tt, n, s)
  | ConsoleLog _ => (tt, n, s)
  | ConsoleError _ => (tt, n, s)
  | DateNow => (clock_ms w n, S n, s)
  | MathRandom36 => (random36 w n, S n, s)
  | NewDateISO => (clock_iso w n, S n, s)
  | @Await X e => (settle w n X e, S n, elapse w n s)
  end.

(** Running a program of the process from answer number [n] and state [s]. *)
Definition run {R : Type} (w : world) (p : prog R) (n : nat) (s : state)
    : result state R :=
  interp (handle w) p n s.

(** ** Reading a trace *)

(** The events of a trace, without the states. *)
Definition events {St : Type} (tr : list (entry * St)) : list entry := map fst tr.

(** The records written under [jobId], in order: the arguments of its
    [jobs.set] calls. *)
Definition writes (jobId : string) (evs : list entry) : list record :=
  omap (fun d =>
          match d with
          | Did (JobsSet j r) _ => if decide (j = jobId) then Some r else None
          | _ => None
          end) evs.

(** The records written by [jobs.set], under any id. *)
Definition sets (evs : list entry) : list record :=
  omap (fun d =>
          match d with
          | Did (JobsSet _ r) _ => Some r
          | _ => None
          end) evs.

(** What [jobs.get] returned, call by call. *)
Definition reads (evs : list entry) : list (option record) :=
  omap (fun d =>
          match d with
          | Did (JobsGet _) o => Some o
          | _ => None
          end) evs.

(** The status values written under [jobId], in order. *)
Definition statuses (jobId : string) (evs : list entry) : list value :=
  map (fun r => prop r "status") (writes jobId evs).

(** The [transcribe] calls made: audio path and speech models. *)
Definition transcribes (evs : list entry) : list (string * list string) :=
  omap (fun d =>
          match d with
          | Did (Await (Transcribe audio models)) _ => Some (audio, models)
          | _ => None
          end) evs.

(** The directories scanned with [fs.readdir]. *)
Definition scans (evs : list entry) : list string :=
  omap (fun d =>
          match d with
          | Did (Await (Readdir path)) _ => Some path
          | _ => None
          end) evs.


(** The timers set: callback and delay. *)
Definition timeouts (evs : list entry) : list (callback * Z) :=
  omap (fun d =>
          match d with
          | Did (SetTimeout cb delay) _ => Some (cb, delay)
          | _ => None
          end) evs.

(** The responses sent: status code and body. *)
Definition responses (evs : list entry) : list (Z * record) :=
  omap (fun d =>
          match d with
          | Did (Respond code body) _ => Some (code, body)
          | _ => None
          end) evs.

(** The job's record after each event of a trace; [get] reads the record
    off a state. *)
Definition snapshots_by {St : Type} (get : St -> option record) (tr : list (entry * St))
    : list (option record) :=
  map (fun '(_, s) => get s) tr.

Definition snapshots (jobId : string) (tr : list (entry * state)) : list (option record) :=
  snapshots_by (fun s => jobs s !! jobId) tr.

(** The job's record at the points where the process yields to other
    handlers, i.e. right after each [await]: what a status query that is
    served during the job's lifetime can see. *)
Definition observable_by {St : Type} (get : St -> option record) (tr : list (entry * St))
    : list (option record) :=
  omap (fun '(d, s) =>
          match d with
          | Did (Await _) _ => Some (get s)
          | _ => None
          end) tr.

Definition observable (jobId : string) (tr : list (entry * state)) : list (option record) :=
  observable_by (fun s => jobs s !! jobId) tr.



(** ** Replaying the registry reads

    The events of a run are determined by the answers of the world and by
    what the program reads from the registry: replaying the reads of a run
    gives its events again ([run_replay] below). *)

Definition handle_replay (w : world) (n : nat) (X : Type) (e : event X)
    (rs : list (option record)) : X * nat * list (option record) :=
  match e in event X return X * nat * list (option record) with
  | JobsGet _ => (default None (head rs), n, tail rs)
  | JobsSet _ _ => (tt, n, rs)
  | JobsDelete _ => (tt, n, rs)
  | SetTimeout _ _ => (tt, n, rs)
  | Respond _ _ => (tt, n, rs)
  | ConsoleLog _ => (tt, n, rs)
  | ConsoleError _ => (tt, n, rs)
  | DateNow => (clock_ms w n, S n, rs)
  | MathRandom36 => (random36 w n, S n, rs)
  | NewDateISO => (clock_iso w n, S n, rs)
  | @Await X e => (settle w n X e, S n, rs)
  end.

Definition replay {R : Type} (w : world) (p : prog R) (n : nat) (rs : list (option record))
    : result (list (option record)) R :=
  interp (handle_replay w) p n rs.

(** ** The view of one job

    What one job can observe of the shared state: its own record, the due
    times of the pending timers that delete it, and the clock.  A program
    that only touches the registry under its own id runs the same way on
    its view as on the whole state ([run_project] below). *)

Record view : Type := View {
  cell : option record;
  alarms : list Z;
  vnow : Z
}.

Definition owns (jobId : string) (tm : Z * callback) : bool :=
  bool_decide (callback_target tm.2 = jobId).

Definition project (jobId : string) (s : state) : view :=
  View (jobs s !! jobId) (map fst (List.filter (owns jobId) (timers s))) (now s).

Definition passv (d : Z) (v : view) : view :=
  let t := vnow v + Z.max 0 d in
  View (if existsb (fun a => a <=? t) (alarms v) then None else cell v)
       (List.filter (fun a => negb (a <=? t)) (alarms v))
       t.

Definition handlev (w : world) (n : nat) (X : Type) (e : event X) (v : view)
    : X * nat * view :=
  match e in event X return X * nat * view with
  | JobsGet _ => (cell v, n, v)
  | JobsSet _ r => (tt, n, View (Some r) (alarms v) (vnow v))
  | JobsDelete _ => (tt, n, View None (alarms v) (vnow v))
  | SetTimeout _ d => (tt, n, View (cell v) (alarms v ++ [vnow v + timer_delay d]) (vnow v))
  | Respond _ _ => (tt, n, v)
  | ConsoleLog _ => (tt, n, v)
  | ConsoleError _ => (tt, n, v)
  | DateNow => (clock_ms w n, S n, v)
  | MathRandom36 => (random36 w n, S n, v)
  | NewDateISO => (clock_iso w n, S n, v)
  | @Await X e => (settle w n X e, S n, passv (delay w n) v)
  end.

Definition runv {R : Type} (w : world) (p : prog R) (n : nat) (v : view)
    : result view R :=
  interp (handlev w) p n v.

Definition project_result {R : Type} (jobId : string) (r : result state R)
    : result view R :=
  Result (map (fun '(d, s) => (d, project jobId s)) (trace r))
         (outcome r) (steps r) (project jobId (final r)).

(** The event only concerns the job [jobId]. *)
Definition event_local (jobId : string) {X : Type} (e : event X) : Prop :=
  match e with
  | JobsGet j => j = jobId
  | JobsSet j _ => j = jobId
  | JobsDelete j => j = jobId
  | SetTimeout cb _ => callback_target cb = jobId
  | _ => True
  end.

Fixpoint local (jobId : string) {R : Type} (p : prog R) : Prop :=
  match p with
  | Vis e k => event_local jobId e /\ forall x, local jobId (k x)
  | _ => True
  end.

(** Nothing else in the process touches the record of [jobId]: the
    single-writer-per-key discipline of the registry. *)
Definition quiet (w : world) (jobId : string) : Prop :=
  forall n, Forall (fun a => action_target a <> jobId) (others w n).

(** No pending timer deletes [jobId]. *)
Definition no_timer (jobId : string) (s : state) : Prop :=
  Forall (fun tm => callback_target tm.2 <> jobId) (timers s).

(** The id is not in use: no record and no pending timer. *)
Definition fresh (jobId : string) (s : state) : Prop :=
  jobs s !! jobId = None /\ no_timer jobId s.

(** ** Jobs *)

(** The id that [post_transcribe] generates when it starts at answer [n]. *)
Definition job_id (w : world) (n : nat) : string :=
  "job_" +:+ pretty (clock_ms w n) +:+ "_" +:+ String.substring 2 9 (random36 w (S n)).

(** The scratch directory and the declared output path of a job
    (index.js:75 and 95). *)
Definition temp_dir (jobId : string) : string := "/tmp/transcribe_" +:+ jobId.
Definition audio_path (jobId : string) : string := path_join (temp_dir jobId) "audio.mp3".

Definition status_of (r : record) : value := prop r "status".

Definition terminal (r : record) : bool :=
  bool_decide (status_of r = VStr "completed") || bool_decide (status_of r = VStr "failed").

(** The property [k] exists on the record. *)
Definition has_field (r : record) (k : string) : bool := bool_decide (is_Some (r !! k)).

(** The property [k] holds a value other than [undefined] and [null]. *)
Definition populated (r : record) (k : string) : bool :=
  match r !! k with
  | Some VUndefined | Some VNull | None => false
  | Some _ => true
  end.

(** The outcome fields of a record agree with its status: a completed
    record has [transcript] and no [error], a failed record has [error] and
    no [transcript], any other record has neither.  [present] says when a
    field counts as there. *)
Definition outcome_fields (present : record -> string -> bool) (r : record) : bool :=
  let t := present r "transcript" in
  let e := present r "error" in
  if bool_decide (status_of r = VStr "completed") then t && negb e
  else if bool_decide (status_of r = VStr "failed") then e && negb t
  else negb t && negb e.

(** [P] holds of the job's record, if there is one. *)
Definition holds (P : record -> Prop) (c : option record) : Prop :=
  match c with
  | Some r => P r
  | None => True
  end.

(** The record that [post_transcribe] creates (index.js:55-60). *)
Definition queued_record (jobId : string) (url : value) (createdAt : string) : record :=
  object [("jobId", VStr jobId); ("url", url); ("status", VStr "queued");
          ("createdAt", VStr createdAt)].


(** The error message of a failed record. *)
Definition failure (c : option record) : option value :=
  match c with
  | Some r => if bool_decide (status_of r = VStr "failed") then r !! "error" else None
  | None => None
  end.

(** The names that the fallback scan is to accept: a file with one of the
    extensions mp3, m4a, wav. *)
Definition has_audio_extension (f : string) : Prop :=
  exists p, f = p +:+ ".mp3" \/ f = p +:+ ".m4a" \/ f = p +:+ ".wav".

(** The world [w], except that every [fetch] settles as [x]. *)
Definition with_fetch (x : exn + unit) (w : world) : world :=
  World (clock_ms w) (random36 w) (clock_iso w)
    (fun n X e =>
       match e in io X return exn + X -> exn + X with
       | Fetch _ _ _ => fun _ => x
       | _ => fun a => a
       end (settle w n X e))
    (delay w) (others w).

(** The process after the pipeline: a sequence of idle periods, each with
    its duration and what the other handlers do in it. *)
Definition idle (periods : list (Z * list action)) (s : state) : state :=
  foldl (fun s p => pass p.1 p.2 s) s periods.

Definition elapsed (periods : list (Z * list action)) : Z :=
  foldr (fun p t => Z.max 0 p.1 + t) 0 periods.

Definition undisturbed (jobId : string) (periods : list (Z * list action)) : Prop :=
  Forall (fun p => Forall (fun a => action_target a <> jobId) p.2) periods.

(** The retention period of index.js:198. *)
Definition retention : Z := 60 * 60 * 1000.

(** ** The status paths of the specification

    Section 8 of the specification: "status visits a subsequence of
    queued, downloading, transcribing, completed or queued, downloading,
    failed or queued, transcribing, failed". *)







(** ** Sample worlds and requests *)

(** A world given by how awaited operations settle: the clock reads
    1700000000000, the random digits are 4fzyo82mvyr, every await takes a
    second, and the rest of the process does what [acts] says. *)
Definition world_of (st : forall X : Type, io X -> exn + X) (acts : list action) : world :=
  World (fun _ => 1700000000000)
        (fun _ => "0.4fzyo82mvyr")
        (fun n => "2023-11-14T22:13:2" +:+ pretty n +:+ ".000Z")
        (fun _ => st)
        (fun _ => 1000)
        (fun _ => acts).

Definition sample_id : string := "job_1700000000000_4fzyo82mv".

(** Everything succeeds. *)
Definition settle_ok (X : Type) (e : io X) : exn + X :=
  match e in io X return exn + X with
  | Mkdir _ _ => inr tt
  | Exec _ _ => inr tt
  | Access _ => inr tt
  | Readdir _ => inr ["audio.mp3"]
  | Rm _ _ _ => inr tt
  | Transcribe _ _ => inr (Transcript "completed" (VStr "hello world") VUndefined)
  | Fetch _ _ _ => inr tt
  end.

(** The provider rejects the transcription request. *)
Definition settle_provider_down (X : Type) (e : io X) : exn + X :=
  match e in io X return exn + X with
  | Transcribe _ _ => inl (Error "connect ECONNREFUSED")
  | e => settle_ok _ e
  end.

(** The provider resolves with a completed transcript whose text is null. *)
Definition settle_null_text (X : Type) (e : io X) : exn + X :=
  match e in io X return exn + X with
  | Transcribe _ _ => inr (Transcript "completed" VNull VUndefined)
  | e => settle_ok _ e
  end.

(** The download tool exits successfully but writes audio.m4a. *)
Definition settle_m4a (X : Type) (e : io X) : exn + X :=
  match e in io X return exn + X with
  | Access _ => inl (Error "ENOENT: no such file or directory, access")
  | Readdir _ => inr ["audio.m4a"]
  | e => settle_ok _ e
  end.

(** The download tool exits successfully and writes nothing. *)
Definition settle_no_output (X : Type) (e : io X) : exn + X :=
  match e in io X return exn + X with
  | Access _ => inl (Error "ENOENT: no such file or directory, access")
  | Readdir _ => inr ["video.part"]
  | e => settle_ok _ e
  end.

(** The callback target is unreachable. *)
Definition settle_no_callback (X : Type) (e : io X) : exn + X :=
  match e in io X return exn + X with
  | Fetch _ _ _ => inl (Error "fetch failed")
  | e => settle_ok _ e
  end.

(** Another job of the process, and what its pipeline does meanwhile. *)
Definition other_id : string := "job_1699999999000_k2j8d0q1x".

Definition other_record : record :=
  object [("jobId", VStr other_id); ("url", VStr "https://example.com/other");
          ("status", VStr "downloading")].

Definition other_acts : list action :=
  [OtherSet other_id other_record; OtherTimeout (DeleteJob other_id) 3600000].

Definition w_happy : world := world_of settle_ok other_acts.
Definition w_provider_down : world := world_of settle_provider_down [].
Definition w_null_text : world := world_of settle_null_text [].
Definition w_m4a : world := world_of settle_m4a [].
Definition w_no_output : world := world_of settle_no_output [].
Definition w_no_callback : world := world_of settle_no_callback other_acts.

Definition s_empty : state := State ∅ [] 0.

(** A registry that already holds another job, with its eviction pending. *)
Definition s_busy : state :=
  State {[ other_id := other_record ]} [(5000, DeleteJob other_id)] 0.

Definition body_url : record := object [("url", VStr "https://example.com/video")].

Definition body_callback : record :=
  object [("url", VStr "https://example.com/video");
          ("callbackUrl", VStr "https://hooks.example.com/done")].

Definition body_no_url : record :=
  object [("callbackUrl", VStr "https://hooks.example.com/done")].

(** ** More of a trace *)

(** The name of an awaited operation, as the source calls it. *)
Definition io_name {X : Type} (e : io X) : string :=
  match e with
  | Mkdir _ _ => "fs.mkdir"
  | Exec _ _ => "execAsync"
  | Access _ => "fs.access"
  | Readdir _ => "fs.readdir"
  | Rm _ _ _ => "fs.rm"
  | Transcribe _ _ => "assemblyai.transcripts.transcribe"
  | Fetch _ _ _ => "fetch"
  end.

(** The operations awaited, in order. *)
Definition awaited (evs : list entry) : list string :=
  omap (fun d =>
          match d with
          | Did (Await e) _ => Some (io_name e)
          | _ => None
          end) evs.

(** The awaited operations of [processTranscription], in the order of the
    source. *)
Definition pipeline_steps : list string :=
  ["fs.mkdir"; "execAsync"; "fs.access"; "fs.readdir";
   "assemblyai.transcripts.transcribe"; "fetch"; "fs.rm"].

(** The [fs.rm] calls made: path, [recursive] and [force]. *)
Definition removals (evs : list entry) : list (string * bool * bool) :=
  omap (fun d =>
          match d with
          | Did (Await (Rm path recursive force)) _ => Some (path, recursive, force)
          | _ => None
          end) evs.

(** The download commands run: command line and timeout. *)
Definition downloads (evs : list entry) : list (string * Z) :=
  omap (fun d =>
          match d with
          | Did (Await (Exec command timeout)) _ => Some (command, timeout)
          | _ => None
          end) evs.

(** The [fetch] calls made: target, method and payload. *)
Definition notifications (evs : list entry) : list (value * string * record) :=
  omap (fun d =>
          match d with
          | Did (Await (Fetch url method payload)) _ => Some (url, method, payload)
          | _ => None
          end) evs.

(** How the [transcribe] calls settled. *)
Definition transcribed (evs : list entry) : list (exn + transcript) :=
  omap (fun d =>
          match d with
          | Did e x =>
              match e in event X return X -> option (exn + transcript) with
              | Await e' =>
                  match e' in io Y return exn + Y -> option (exn + transcript) with
                  | Transcribe _ _ => fun x => Some x
                  | _ => fun _ => None
                  end
              | _ => fun _ => None
              end x
          end) evs.

(** The paths handed to the file system and to the transcription. *)
Definition paths (evs : list entry) : list string :=
  omap (fun d =>
          match d with
          | Did (Await (Mkdir path _)) _ => Some path
          | Did (Await (Access path)) _ => Some path
          | Did (Await (Readdir path)) _ => Some path
          | Did (Await (Rm path _ _)) _ => Some path
          | Did (Await (Transcribe audio _)) _ => Some audio
          | _ => None
          end) evs.

(** The events of a handler up to its first await: what runs before any
    other handler of the process can. *)
Fixpoint before_await (evs : list entry) : list entry :=
  match evs with
  | [] => []
  | Did (Await _) _ :: _ => []
  | d :: evs' => d :: before_await evs'
  end.

(** For each await of a trace, the operation awaited and the status of the
    job's record while it is in flight; [get] reads the record off a
    state. *)
Definition status_during_by {St : Type} (get : St -> option record)
    (tr : list (entry * St)) : list (string * option value) :=
  omap (fun '(d, s) =>
          match d with
          | Did (Await e) _ => Some (io_name e, status_of <$> get s)
          | _ => None
          end) tr.

Definition status_during (jobId : string) (tr : list (entry * state))
    : list (string * option value) :=
  status_during_by (fun s => jobs s !! jobId) tr.

(** The statuses that go with an awaited operation of the pipeline. *)
Definition statuses_of_step (op : string) : list value :=
  if bool_decide (op = "fs.mkdir") then [VStr "processing"]
  else if bool_decide (op ∈ ["execAsync"; "fs.access"; "fs.readdir"])
       then [VStr "downloading"]
  else if bool_decide (op = "assemblyai.transcripts.transcribe") then [VStr "transcribing"]
  else [VStr "completed"; VStr "failed"].

(** No await lies between a [jobs.get] and the [jobs.set] that follows it:
    the other handlers of the process run at awaits only, so every
    read-modify-write of the registry is then done in one piece.  [pending]
    says that a read has not been written back yet. *)
Fixpoint atomic_updates (pending : bool) (evs : list entry) : bool :=
  match evs with
  | [] => true
  | Did (JobsGet _) _ :: evs' => atomic_updates true evs'
  | Did (JobsSet _ _) _ :: evs' => atomic_updates false evs'
  | Did (Await _) _ :: evs' => negb pending && atomic_updates pending evs'
  | _ :: evs' => atomic_updates pending evs'
  end.

(** The statuses that a record can have when the process yields to other
    handlers. *)
Definition visible_statuses : list value :=
  [VStr "processing"; VStr "downloading"; VStr "transcribing"; VStr "completed";
   VStr "failed"].

(** ** The health check *)

(** [app.get('/health')] (index.js:23-29).  The handler is synchronous and
    only reads: the body of its response, for the registry and the clock
    reading at the time of the request. *)
Definition health (registry : gmap string record) (timestamp : string) : record :=
  object [("status", VStr "ok");
          ("timestamp", VStr timestamp);
          ("activeJobs", VNum (Z.of_nat (size registry)))].

(** ** A process that handles one request *)

(** Nothing else happens in the process while the program runs. *)
Definition alone (w : world) : Prop := forall n, others w n = [].

(** Idle periods in which no handler runs. *)
Definition uneventful (periods : list (Z * list action)) : Prop :=
  Forall (fun p => p.2 = []) periods.

(** ** Characters of a string *)

(** The string holds no occurrence of the character [c]. *)
Fixpoint lacks (c : Ascii.ascii) (s : string) : bool :=
  match s with
  | EmptyString => true
  | String c' s' => negb (Ascii.eqb c' c) && lacks c s'
  end.

(** The separator of the parts of a job id (index.js:52). *)
Definition underscore : Ascii.ascii := Ascii.ascii_of_nat 95.

(** The separator of the segments of a path. *)
Definition slash : Ascii.ascii := Ascii.ascii_of_nat 47.

(** ** More sample worlds and states *)

(** The scratch directory cannot be created. *)
Definition settle_no_space (X : Type) (e : io X) : exn + X :=
  match e in io X return exn + X with
  | Mkdir _ _ => inl (Error "ENOSPC: no space left on device, mkdir")
  | e => settle_ok _ e
  end.

Definition w_no_space : world := world_of settle_no_space [].

(** A finished job that stands by while another request is handled. *)
Definition bystander_id : string := "job_1699999990000_b7x2k9p0q".

Definition bystander_record : record :=
  object [("jobId", VStr bystander_id); ("url", VStr "https://example.com/earlier");
          ("transcript", VStr "earlier words"); ("status", VStr "completed");
          ("completedAt", VStr "2023-11-14T22:13:10.000Z")].

Definition s_bystander : state :=
  State {[ other_id := other_record; bystander_id := bystander_record ]}
        [(5000, DeleteJob other_id)] 0.

(** ** The paths of the pipeline *)

(** What every path of [processTranscription] has in common, stated of the
    outcome [out], the events [evs] and the records written [recs] of a run
    that starts at answer [n]: the pipeline returns normally and sends no
    response; its awaited operations are taken from [pipeline_steps] in that
    order, starting with [fs.mkdir] and ending with the one [fs.rm]; the last
    record written is terminal and is the payload of the only [fetch], made
    exactly when [callbackUrl] is truthy; the last record is determined by
    how [fs.mkdir] and [transcribe] settled; every path it hands out is the
    scratch directory or the declared output path; and no await separates
    a registry read from its write. *)
Definition pipeline_facts (w : world) (id : string) (url cb : value) (n : nat)
    (out : exn + unit) (evs : list entry) (recs : list record) : Prop :=
  let ops := awaited evs in
  let fin := last recs in
  let written := map (fun p => prop p "status") recs in
  out = inr tt
  /\ responses evs = []
  /\ ops `sublist_of` pipeline_steps
  /\ head ops = Some "fs.mkdir"
  /\ last ops = Some "fs.rm"
  /\ removals evs = [(temp_dir id, true, true)]
  /\ match fin with
     | Some p =>
         terminal p = true
         /\ notifications evs = (if truthy cb then [(cb, "POST", p)] else [])
     | None => False
     end
  /\ match transcribed evs with
     | [] => (VStr "completed" ∉ written)
     | [inl e] =>
         (VStr "completed" ∉ written)
         /\ failure fin = Some (VStr (message e))
     | [inr t] =>
         if String.eqb (status t) "error" then
           (VStr "completed" ∉ written)
           /\ failure fin = Some (VStr ("AssemblyAI error: " +:+ to_string (error t)))
         else
           match text t with
           | VUndefined =>
               last written = Some (VStr "failed")
               /\ failure fin
                  = Some (VStr "Cannot read properties of undefined (reading 'length')")
           | VNull =>
               last written = Some (VStr "failed")
               /\ failure fin
                  = Some (VStr "Cannot read properties of null (reading 'length')")
           | _ =>
               last written = Some (VStr "completed")
               /\ fin ≫= (fun p => p !! "transcript") = Some (text t)
           end
     | _ => False
     end
  /\ downloads evs
     = match settle w (S n) unit (Mkdir (temp_dir id) true) with
       | inr _ => [(ytdlp_command (temp_dir id) url, 300000)]
       | inl _ => []
       end
  /\ (forall e, settle w (S n) unit (Mkdir (temp_dir id) true) = inl e ->
      ops = (if truthy cb then ["fs.mkdir"; "fetch"; "fs.rm"] else ["fs.mkdir"; "fs.rm"])
      /\ written = [VStr "processing"; VStr "failed"]
      /\ failure fin = Some (VStr (message e)))
  /\ Forall (fun path => path = temp_dir id \/ path = audio_path id) (paths evs)
  /\ atomic_updates false evs = true.

(** * Properties *)

(** ** A program that stays with its job runs the same on the job's view *)

Lemma project_actions id acts s :
  Forall (fun a => action_target a <> id) acts ->
  project id (foldl apply_action s acts) = project id s.
Proof.
  intros H. revert s. induction H as [|a acts Ha _ IH]; intros s; [done|].
  cbn. rewrite IH. destruct a as [j r|j|cb d]; cbn in *.
  - unfold project; cbn. by rewrite lookup_insert_ne.
  - unfold project; cbn. by rewrite lookup_delete_ne.
  - unfold project, add_timer; cbn. rewrite List.filter_app. cbn.
    unfold owns at 2. cbn. rewrite bool_decide_eq_false_2 by done.
    by rewrite app_nil_r.
Qed.

Lemma foldl_fire_frame s l :
  timers (foldl fire s l) = timers s /\ now (foldl fire s l) = now s.
Proof.
  revert s. induction l as [|[d [j]] l IH]; intros s; cbn; [done|].
  destruct (IH (delete_job j s)) as [-> ->]. done.
Qed.

Lemma foldl_fire_lookup id s (l : list (Z * callback)) :
  jobs (foldl fire s l) !! id =
    if existsb (owns id) l then None else jobs s !! id.
Proof.
  revert s. induction l as [|[d [j]] l IH]; intros s; cbn; [done|].
  rewrite IH. cbn. unfold owns at 2. cbn.
  case_bool_decide as Hj; cbn.
  - subst j. rewrite lookup_delete_eq. by destruct (existsb _ l).
  - by rewrite lookup_delete_ne.
Qed.

Lemma owns_due id t (T : list (Z * callback)) :
  existsb (owns id) (List.filter (is_due t) T) =
    existsb (fun a => a <=? t) (map fst (List.filter (owns id) T)).
Proof.
  induction T as [|[d cb] T IH]; [done|].
  cbn [List.filter]. change (is_due t (d, cb)) with (d <=? t).
  destruct (d <=? t) eqn:Hd, (owns id (d, cb)) eqn:Ho;
    cbn [List.filter existsb map fst negb orb]; rewrite ?Hd, ?Ho;
    cbn [List.filter existsb map fst negb orb]; by rewrite ?IH.
Qed.

Lemma owns_not_due id t (T : list (Z * callback)) :
  map fst (List.filter (owns id) (List.filter (fun tm => negb (is_due t tm)) T)) =
    List.filter (fun a => negb (a <=? t)) (map fst (List.filter (owns id) T)).
Proof.
  induction T as [|[d cb] T IH]; [done|].
  cbn [List.filter]. change (is_due t (d, cb)) with (d <=? t).
  destruct (d <=? t) eqn:Hd, (owns id (d, cb)) eqn:Ho;
    cbn [List.filter existsb map fst negb orb]; rewrite ?Hd, ?Ho;
    cbn [List.filter existsb map fst negb orb]; by rewrite ?IH.
Qed.

Lemma project_fire_due id s :
  project id (fire_due s) = passv 0 (project id s).
Proof.
  unfold fire_due, passv, project.
  destruct (foldl_fire_frame
    (State (jobs s) (List.filter (fun tm => negb (is_due (now s) tm)) (timers s)) (now s))
    (List.filter (is_due (now s)) (timers s))) as [-> ->].
  rewrite foldl_fire_lookup. cbn. rewrite Z.add_0_r.
  by rewrite owns_due, owns_not_due.
Qed.

Lemma project_pass id d acts s :
  Forall (fun a => action_target a <> id) acts ->
  project id (pass d acts s) = passv d (project id s).
Proof.
  intros H. unfold pass. rewrite project_fire_due, project_actions by done.
  unfold passv, project. cbn. by rewrite Z.add_0_r.
Qed.

Lemma handle_project id w n X (e : event X) s :
  quiet w id -> event_local id e ->
  handlev w n X e (project id s) =
    let '(x, n', s') := handle w n X e s in (x, n', project id s').
Proof.
  intros Hq He. destruct e; cbn in *; subst; try done.
  - unfold project; cbn. by rewrite lookup_insert_eq.
  - unfold project; cbn. by rewrite lookup_delete_eq.
  - unfold project, add_timer; cbn. rewrite List.filter_app, map_app. cbn.
    unfold owns at 3. cbn [snd]. by rewrite bool_decide_eq_true_2.
  - unfold elapse. by rewrite project_pass.
Qed.

Lemma run_project id w R (p : prog R) n s :
  quiet w id -> local id p ->
  project_result id (run w p n s) = runv w p n (project id s).
Proof.
  intros Hq. unfold run, runv. revert n s.
  induction p as [a|e|X e k IH]; intros n s Hl; cbn; try done.
  destruct Hl as [He Hk].
  rewrite (handle_project id w n X e s) by done.
  destruct (handle w n X e s) as [[x n'] s'].
  rewrite <- IH by done. done.
Qed.

Lemma project_fresh id s r :
  no_timer id s ->
  project id (set_job id r s) = View (Some r) [] (now s).
Proof.
  intros H. unfold project. cbn. rewrite lookup_insert_eq. f_equal.
  induction H as [|tm T Htm _ IH]; [done|].
  cbn. unfold owns at 1. by rewrite bool_decide_eq_false_2.
Qed.

(** ** Unfolding programs *)

Ltac unfold_prog :=
  cbn [bind mbind prog_bind mret prog_ret try_catch try_finally trigger await when
       post_callback processTranscription post_transcribe get_job
       jobs_update jobs_get jobs_set jobs_delete set_timeout respond
       console_log console_error date_now math_random36 new_date_iso length_of].

Ltac local_step :=
  unfold_prog; cbn [local event_local callback_target];
  match goal with
  | |- _ /\ _ => split
  | |- True => exact I
  | |- @eq string _ _ => reflexivity
  | |- forall _, _ => intro
  | |- context [length_of ?v] => destruct v
  | |- context [match ?x with _ => _ end] => destruct x
  end.

(** The pipeline of a job only touches the registry under the job's id, and
    the only timer it sets deletes that id. *)
Lemma local_processTranscription id url cb : local id (processTranscription id url cb).
Proof.
  unfold processTranscription, post_callback, when.
  repeat local_step.
Qed.

(** The handler creates the record and hands over to the pipeline. *)
Lemma run_post_transcribe w body n s :
  truthy (prop body "url") = true ->
  run w (post_transcribe body) n s =
    let id := job_id w n in
    let url := prop body "url" in
    let queued := queued_record id url (clock_iso w (S (S n))) in
    let s1 := set_job id queued s in
    let r := run w (processTranscription id url (prop body "callbackUrl")) (S (S (S n))) s1 in
    Result ([ (Did DateNow (clock_ms w n), s);
              (Did MathRandom36 (random36 w (S n)), s);
              (Did NewDateISO (clock_iso w (S (S n))), s);
              (Did (JobsSet id queued) tt, s1);
              (Did (Respond 200 (object [("status", VStr "queued");
                                         ("jobId", VStr id);
                                         ("url", url);
                                         ("message", VStr "Job queued for processing")])) tt, s1) ]
            ++ trace r)
           (outcome r) (steps r) (final r).
Proof.
  intros Hurl. unfold run, post_transcribe. rewrite Hurl. reflexivity.
Qed.

(** ** Reading the trace of a run *)

Lemma events_app {St} (tr1 tr2 : list (entry * St)) :
  events (tr1 ++ tr2) = (events tr1 ++ events tr2)%list.
Proof. apply map_app. Qed.

Lemma snapshots_app id (tr1 tr2 : list (entry * state)) :
  snapshots id (tr1 ++ tr2) = (snapshots id tr1 ++ snapshots id tr2)%list.
Proof. apply map_app. Qed.

Lemma observable_app id (tr1 tr2 : list (entry * state)) :
  observable id (tr1 ++ tr2) = (observable id tr1 ++ observable id tr2)%list.
Proof. apply omap_app. Qed.



Lemma events_project id R (r : result state R) :
  events (trace (project_result id r)) = events (trace r).
Proof.
  unfold events, project_result. cbn [trace].
  induction (trace r) as [|[d s] tr IH]; [done|]. cbn. by rewrite IH.
Qed.

Lemma snapshots_project id R (r : result state R) :
  snapshots id (trace r) = snapshots_by cell (trace (project_result id r)).
Proof.
  unfold snapshots, snapshots_by, project_result. cbn [trace].
  induction (trace r) as [|[d s] tr IH]; [done|]. cbn. by rewrite IH.
Qed.

Lemma observable_project id R (r : result state R) :
  observable id (trace r) = observable_by cell (trace (project_result id r)).
Proof.
  unfold observable, observable_by, project_result. cbn [trace].
  induction (trace r) as [|[d s] tr IH]; [done|]. cbn. rewrite IH.
  destruct d as [X e x]. by destruct e.
Qed.

Lemma final_project id R (r : result state R) :
  jobs (final r) !! id = cell (final (project_result id r)).
Proof. done. Qed.

(** A program that stays with its job writes under the job's id only. *)
Lemma writes_local {St} (h : nat -> forall X : Type, event X -> St -> X * nat * St)
    id R (p : prog R) n s :
  local id p ->
  writes id (events (trace (interp h p n s))) = sets (events (trace (interp h p n s))).
Proof.
  revert n s. induction p as [a|e|X e k IH]; intros n s Hl; cbn; try done.
  destruct Hl as [He Hk].
  destruct (h n X e s) as [[x n'] s']. cbn [trace].
  unfold writes, sets, events in *. cbn [map fst omap list_omap]. rewrite IH by done.
  destruct e; cbn in He; subst; try done.
  by rewrite decide_True.
Qed.


Lemma writes_pipeline w id url cb n s :
  writes id (events (trace (run w (processTranscription id url cb) n s))) =
    sets (events (trace (run w (processTranscription id url cb) n s))).
Proof. apply writes_local, local_processTranscription. Qed.

Lemma events_cons {St} d (s : St) tr : events ((d, s) :: tr) = d :: events tr.
Proof. done. Qed.

(** Replaying the reads of a run gives its events, its outcome and its
    number of answers again. *)
Lemma run_replay w R (p : prog R) n s :
  events (trace (replay w p n (reads (events (trace (run w p n s))))))
    = events (trace (run w p n s))
  /\ outcome (replay w p n (reads (events (trace (run w p n s)))))
       = outcome (run w p n s)
  /\ steps (replay w p n (reads (events (trace (run w p n s)))))
       = steps (run w p n s).
Proof.
  unfold run, replay. revert n s.
  induction p as [a|e|X e k IH]; intros n s; cbn [interp]; try done.
  destruct (handle w n X e s) as [[x n'] s'] eqn:Hh. cbn [trace outcome steps].
  rewrite events_cons.
  assert (handle_replay w n X e
            (reads (Did e x :: events (trace (interp (handle w) (k x) n' s'))))
          = (x, n', reads (events (trace (interp (handle w) (k x) n' s'))))) as ->.
  { destruct e; cbn in Hh |- *; by simplify_eq. }
  cbn [trace outcome steps]. rewrite events_cons.
  destruct (IH x n' s') as (-> & -> & ->). done.
Qed.


Lemma timeouts_app (evs1 evs2 : list entry) :
  timeouts (evs1 ++ evs2) = (timeouts evs1 ++ timeouts evs2)%list.
Proof. apply omap_app. Qed.

(** The events of a job's lifetime: its creation, then its pipeline. *)
Lemma lifetime_events w body n s :
  truthy (prop body "url") = true ->
  let id := job_id w n in
  let url := prop body "url" in
  let queued := queued_record id url (clock_iso w (S (S n))) in
  events (trace (run w (post_transcribe body) n s)) =
   ([ Did DateNow (clock_ms w n);
      Did MathRandom36 (random36 w (S n));
      Did NewDateISO (clock_iso w (S (S n)));
      Did (JobsSet id queued) tt;
      Did (Respond 200 (object [("status", VStr "queued");
                                ("jobId", VStr id);
                                ("url", url);
                                ("message", VStr "Job queued for processing")])) tt ]
    ++ events (trace (run w (processTranscription id url (prop body "callbackUrl"))
                        (S (S (S n))) (set_job id queued s))))%list.
Proof.
  intros Hurl. rewrite run_post_transcribe by done. cbn zeta. cbn [trace].
  by rewrite events_app.
Qed.


Lemma lifetime_final w body n s :
  truthy (prop body "url") = true ->
  let id := job_id w n in
  let url := prop body "url" in
  let queued := queued_record id url (clock_iso w (S (S n))) in
  final (run w (post_transcribe body) n s) =
    final (run w (processTranscription id url (prop body "callbackUrl"))
             (S (S (S n))) (set_job id queued s)).
Proof. intros Hurl. by rewrite run_post_transcribe by done. Qed.

Lemma get_job_responses w n s id :
  responses (events (trace (run w (get_job id) n s))) =
    [match jobs s !! id with
     | Some job => (200, job)
     | None => (404, object [("error", VStr "Job not found")])
     end].
Proof. unfold run, get_job. cbn. by destruct (jobs s !! id). Qed.

Lemma append_inj_r (s a b : string) : s +:+ a = s +:+ b -> a = b.
Proof. induction s as [|c s IH]; cbn; [done|]. intros [= H]. by apply IH. Qed.

(** ** Idle periods *)

Lemma project_idle id periods s :
  undisturbed id periods ->
  project id (idle periods s) = foldl (fun v p => passv p.1 v) (project id s) periods.
Proof.
  intros H. revert s. induction H as [|[d acts] periods Hp _ IH]; intros s; [done|].
  change (project id (idle periods (pass d acts s)) =
          foldl (fun v p => passv p.1 v) (passv d (project id s)) periods).
  by rewrite IH, project_pass.
Qed.

Lemma elapsed_cons p periods : elapsed (p :: periods) = Z.max 0 p.1 + elapsed periods.
Proof. done. Qed.

Lemma elapsed_nonneg periods : 0 <= elapsed periods.
Proof.
  induction periods as [|p periods IH]; [done|]. rewrite elapsed_cons. lia.
Qed.

Lemma idle_view_fired (periods : list (Z * list action)) t :
  cell (foldl (fun v p => passv p.1 v) (View None [] t) periods) = None.
Proof.
  revert t. induction periods as [|[d acts] periods IH]; intros t; [done|].
  cbn. apply IH.
Qed.

(** A record with one pending eviction, due at [a]: it stays as long as
    less time than that has elapsed, and is gone afterwards. *)
Lemma idle_view_pending (periods : list (Z * list action)) c a t :
  t < a ->
  let v := foldl (fun v p => passv p.1 v) (View c [a] t) periods in
  (t + elapsed periods < a -> cell v = c)
  /\ (a <= t + elapsed periods -> cell v = None).
Proof.
  revert t. induction periods as [|[d acts] periods IH]; intros t Ht; cbn zeta.
  - cbn. split; [done|intros ?; lia].
  - rewrite elapsed_cons. cbn [foldl fst]. unfold passv at 2 4.
    cbn [alarms vnow cell existsb List.filter].
    pose proof (elapsed_nonneg periods).
    destruct (Z.leb_spec a (t + Z.max 0 d)) as [Hd|Hd]; cbn [orb negb].
    + rewrite idle_view_fired. split; [|done]. intros ?; lia.
    + destruct (IH (t + Z.max 0 d)) as [H1 H2]; [lia|].
      split; intros; [apply H1|apply H2]; cbn in *; lia.
Qed.

Lemma Forall_holds_decide (P : record -> Prop) `{!forall r, Decision (P r)}
    (l : list (option record)) :
  forallb (fun c => match c with Some r => bool_decide (P r) | None => true end) l = true ->
  Forall (holds P) l.
Proof.
  induction l as [|c l IH]; cbn; [constructor|].
  intros [Hc Hl]%andb_prop. constructor; [|by apply IH].
  destruct c; [|done]. by apply bool_decide_eq_true in Hc.
Qed.

(** ** Running the pipeline, case by case *)

Ltac case_answer :=
  match goal with
  | |- context [settle ?w ?n ?X ?e] =>
      let a := fresh "a" in
      let Ha := fresh "Ha" in
      destruct (settle w n X e) as [[?]|a] eqn:Ha
  | |- context [find is_audio ?l] =>
      let Hf := fresh "Hf" in destruct (find is_audio l) eqn:Hf
  | |- context [String.eqb (status ?t) ?s] =>
      let Hs := fresh "Hs" in destruct (String.eqb (status t) s) eqn:Hs
  | |- context [length_of (text ?t)] =>
      let Hx := fresh "Hx" in destruct (text t) eqn:Hx
  end.

(** An answer that a hypothesis gives. *)
Ltac known_answer :=
  match goal with
  | H : settle ?w ?n ?X ?e = _ |- context [settle ?w ?n ?X ?e] => rewrite H
  | H : find is_audio ?l = _ |- context [find is_audio ?l] => rewrite H
  end.

Ltac exec :=
  cbn [interp handle handlev handle_replay bind mbind prog_bind mret prog_ret
       try_catch try_finally trigger await when
       jobs_update jobs_get jobs_set jobs_delete set_timeout respond
       console_log console_error date_now math_random36 new_date_iso length_of
       trace outcome steps final cell alarms vnow passv existsb List.filter message
       settle with_fetch].

(** Splits a goal about a run of the pipeline into one goal per path;
    [answer] settles the next answer of the world. *)
Ltac pipeline_cases_with answer cb :=
  unfold run, runv, replay, processTranscription, post_callback;
  destruct (truthy cb) eqn:?;
  repeat (exec; answer); exec.

Ltac pipeline_cases cb := pipeline_cases_with ltac:(idtac; case_answer) cb.

(** The same, with the goal's statement about the run [r] held abstract
    while the paths are split. *)
Ltac pipeline_cases_of r cb :=
  pattern r;
  let Q := fresh "Q" in
  match goal with |- ?P _ => set (Q := P) end;
  pipeline_cases cb;
  subst Q; cbn beta; exec.

Ltac pipeline_result_cases cb :=
  match goal with
  | |- context [runv ?w ?p ?n ?v] => pipeline_cases_of (runv w p n v) cb
  | |- context [replay ?w ?p ?n ?rs] => pipeline_cases_of (replay w p n rs) cb
  end.

Ltac read_trace :=
  unfold snapshots_by, observable_by, sets, events;
  cbn [omap list_omap map fmap list_fmap option_map app fst snd].

Ltac decide_by_computation := apply (bool_decide_unpack _); vm_compute; exact I.

Ltac check_records :=
  lazymatch goal with
  | |- Forall (holds ?P) ?l => apply (Forall_holds_decide P l); vm_compute; reflexivity
  end.

(** ** Running the pipeline, path by path *)

Lemma status_of_update (o : option record) (v : value) (l : list (string * value)) :
  prop (merge o (object (("status", v) :: l))) "status" = v.
Proof.
  unfold prop, merge, object. erewrite lookup_union_Some_l; [done|].
  apply lookup_insert_eq.
Qed.

(** Whether the [fs.rm] of the cleanup resolves or rejects, the pipeline
    goes on in the same way. *)
Lemma cleanup_errors_ignored (a : exn + unit) :
  try_catch (match a with inl err => Throw err | inr x => Ret x end) (fun _ => Ret tt)
  = Ret tt.
Proof. by destruct a as [e|[]]. Qed.

Lemma length_of_cases (v : value) :
  v = VUndefined \/ v = VNull
  \/ exists x, length_of v = Ret x /\ v <> VUndefined /\ v <> VNull.
Proof. destruct v; eauto 6. Qed.

(** To prove [P x], prove [Q x] for any [Q] that [P] implies: [P] stays out
    of the way while [x] is computed. *)
Lemma abstractly {A : Type} (P : A -> Prop) (x : A) :
  (forall Q : A -> Prop, (forall y, P y -> Q y) -> Q x) -> P x.
Proof. intros H. by apply (H P). Qed.

Ltac run_step :=
  cbn [interp handle handlev handle_replay bind mbind prog_bind mret prog_ret
       try_catch try_finally trigger await when
       jobs_update jobs_get jobs_set jobs_delete set_timeout respond
       console_log console_error date_now math_random36 new_date_iso
       trace outcome steps final message
       cell alarms vnow passv existsb List.filter].

(** The next answer of the world on which the run depends.  The answer of
    the cleanup's [fs.rm] is not one of them. *)
Ltac next_answer :=
  match goal with
  | |- context [match settle _ _ _ (Rm _ _ _) with _ => _ end] =>
      rewrite cleanup_errors_ignored
  | |- context [match settle ?w ?n ?X ?e with _ => _ end] =>
      let a := fresh "a" in
      let Ha := fresh "Ha" in
      destruct (settle w n X e) as [[?]|a] eqn:Ha
  | |- context [find is_audio ?l] =>
      let Hf := fresh "Hf" in destruct (find is_audio l) eqn:Hf
  | |- context [String.eqb (status ?t) ?s] =>
      let Hs := fresh "Hs" in destruct (String.eqb (status t) s) eqn:Hs
  | |- context [length_of (text ?t)] =>
      let Hx := fresh "Hx" in
      let x := fresh "x" in
      let Hl := fresh "Hl" in
      destruct (length_of_cases (text t)) as [Hx|[Hx|(x & Hl & Hx)]];
      [rewrite Hx; cbn [length_of]|rewrite Hx; cbn [length_of]|rewrite Hl]
  end.

(** Splits a goal [Q (interp h (processTranscription id url cb) n s)] into
    one goal per path of the pipeline. *)
Ltac pipeline_paths_of cb :=
  unfold run, runv, replay, processTranscription, post_callback;
  destruct (truthy cb) eqn:?;
  repeat (run_step; next_answer); run_step.

Ltac in_order :=
  repeat first [apply sublist_nil | apply sublist_skip | apply sublist_cons].

Ltac read_events :=
  unfold awaited, removals, downloads, notifications, transcribed, responses, paths;
  cbn [omap list_omap map fmap list_fmap option_map app fst snd io_name last head];
  rewrite ?status_of_update.

Ltac settle_path :=
  repeat match goal with
         | |- _ /\ _ => split
         | |- _ ∉ _ => decide_by_computation
         | |- _ `sublist_of` _ => in_order
         | |- Forall _ _ =>
             repeat (apply Forall_cons_2;
                     [first [left; reflexivity | right; reflexivity]|]);
             apply Forall_nil_2
         | H : truthy ?cb = _ |- context [truthy ?cb] => rewrite H
         | H : String.eqb (status ?a) _ = _ |- context [String.eqb (status ?a) _] =>
             rewrite H
         | H : text ?a = _ |- context [text ?a] => rewrite H
         | H : text ?a <> _ /\ _ |- context [match text ?a with _ => _ end] =>
             destruct (text a); [by destruct H..| | | |]
         | H : settle ?w ?n ?X ?e = _ |- context [settle ?w ?n ?X ?e] => rewrite H
         | |- forall _, _ => intro
         | H : settle ?w ?n ?X ?e = _, H' : settle ?w ?n ?X ?e = _ |- _ => rewrite H in H'
         | H : inl _ = inr _ |- _ => discriminate H
         | H : inr _ = inl _ |- _ => discriminate H
         | H : inl _ = inl _ |- _ => injection H as <-
         | |- _ = _ => first [reflexivity | vm_compute; reflexivity]
         end.

(** ** The names that the fallback scan accepts *)

Lemma substring_all (s : string) : String.substring 0 (String.length s) s = s.
Proof. induction s as [|c s IH]; [done|]. cbn. by rewrite IH. Qed.

Lemma substring_suffix (p s : string) :
  String.substring (String.length p) (String.length s) (p +:+ s) = s.
Proof. induction p as [|c p IH]; [apply substring_all|exact IH]. Qed.

Lemma substring_split (n : nat) (f : string) :
  (n <= String.length f)%nat ->
  f = String.substring 0 n f +:+ String.substring n (String.length f - n) f.
Proof.
  revert f. induction n as [|n IH]; intros f Hn.
  - rewrite Nat.sub_0_r, substring_all. by destruct f.
  - destruct f as [|c f]; cbn in Hn; [lia|]. cbn.
    change (String c f = String c (String.substring 0 n f
                                   +:+ String.substring n (String.length f - n) f)).
    f_equal. apply IH. lia.
Qed.

Lemma length_append (p s : string) :
  String.length (p +:+ s) = (String.length p + String.length s)%nat.
Proof.
  induction p as [|c p IH]; [done|].
  change (S (String.length (p +:+ s)) = S (String.length p + String.length s)).
  by rewrite IH.
Qed.

Lemma endsWith_spec (f suffix : string) :
  endsWith f suffix = true <-> exists p, f = p +:+ suffix.
Proof.
  unfold endsWith. rewrite andb_true_iff, Nat.leb_le, String.eqb_eq. split.
  - intros [Hl Hs]. exists (String.substring 0 (String.length f - String.length suffix) f).
    pose proof (substring_split (String.length f - String.length suffix) f) as H.
    replace (String.length f - (String.length f - String.length suffix))%nat
      with (String.length suffix) in H by lia.
    rewrite Hs in H. apply H. lia.
  - intros [p ->]. rewrite length_append. split; [lia|].
    replace (String.length p + String.length suffix - String.length suffix)%nat
      with (String.length p) by lia.
    apply substring_suffix.
Qed.

Lemma is_audio_spec (f : string) :
  is_audio f = true <->
  exists p, f = p +:+ ".mp3" \/ f = p +:+ ".m4a" \/ f = p +:+ ".wav".
Proof.
  unfold is_audio. rewrite !orb_true_iff, !endsWith_spec. split.
  - intros [[[p H]|[p H]]|[p H]]; exists p; tauto.
  - intros [p [H|[H|H]]]; [left; left|left; right|right]; by exists p.
Qed.

(** The filter of the scan accepts the names with the extensions mp3, m4a
    and wav, and no other. *)
Lemma find_is_audio_Some (files : list string) (f : string) :
  find is_audio files = Some f -> Exists has_audio_extension files.
Proof.
  intros Hf. apply find_some in Hf as [Hin Ha]. apply Exists_exists.
  exists f. split; [by apply list_elem_of_In|]. by apply is_audio_spec.
Qed.

Lemma find_is_audio_None (files : list string) :
  find is_audio files = None -> Forall (fun f => ~ has_audio_extension f) files.
Proof.
  intros Hf. apply Forall_forall. intros f Hin%list_elem_of_In Ha.
  apply is_audio_spec in Ha. pose proof (find_none _ _ Hf f Hin). congruence.
Qed.

Lemma audio_extension_found (files : list string) :
  Exists has_audio_extension files -> is_Some (find is_audio files).
Proof.
  intros H. destruct (find is_audio files) eqn:Hf; [by eexists|].
  apply find_is_audio_None in Hf. apply Exists_exists in H as (f & Hin & Ha).
  by destruct (proj1 (Forall_forall _ _) Hf f Hin).
Qed.

Lemma audio_extension_not_found (files : list string) :
  Forall (fun f => ~ has_audio_extension f) files -> find is_audio files = None.
Proof.
  intros H. destruct (find is_audio files) eqn:Hf; [|done].
  apply find_is_audio_Some in Hf. apply Exists_exists in Hf as (f & Hin & Ha).
  by destruct (proj1 (Forall_forall _ _) H f Hin).
Qed.

(** ** The record with the time of its last write *)


(** ** The sample worlds *)

Lemma quiet_world_of st acts id :
  Forall (fun a => action_target a <> id) acts -> quiet (world_of st acts) id.
Proof. intros H n. exact H. Qed.

Lemma sample_quiet st : quiet (world_of st other_acts) sample_id.
Proof. apply quiet_world_of. repeat constructor; discriminate. Qed.

Lemma sample_quiet_alone st : quiet (world_of st []) sample_id.
Proof. apply quiet_world_of. constructor. Qed.

Lemma sample_fresh_busy : fresh sample_id s_busy.
Proof. split; [reflexivity|]. repeat constructor; discriminate. Qed.

Lemma sample_fresh_empty : fresh sample_id s_empty.
Proof. split; [reflexivity|]. constructor. Qed.

(** * The claims *)

(** ** C1: the statuses of a job *)





(** ** C2: transcript and error *)

(** C2.  For every job created by a request with a url, in a process where
    nothing else touches the job's record: at every point of the job's
    lifetime, a completed record has the field [transcript] and no field
    [error], a failed record has [error] and no [transcript], and a record
    in any other status has neither; and at every point where a status
    query can be served (after each await), the field that is there holds a
    value other than undefined and null. *)
Theorem outcome_fields_match_status w body s :
  truthy (prop body "url") = true ->
  fresh (job_id w 0) s ->
  quiet w (job_id w 0) ->
  Forall (holds (fun r => outcome_fields has_field r = true))
         (snapshots (job_id w 0) (trace (run w (post_transcribe body) 0 s)))
  /\ Forall (holds (fun r => outcome_fields populated r = true))
            (observable (job_id w 0) (trace (run w (post_transcribe body) 0 s))).
Proof.
  intros Hurl [Hnone Hnt] Hq.
  rewrite run_post_transcribe by done; cbn zeta; cbn [trace].
  set (id := job_id w 0) in *. set (url := prop body "url").
  set (cb := prop body "callbackUrl").
  rewrite snapshots_app, observable_app, snapshots_project, observable_project.
  rewrite (run_project id w _ _ 3 _ Hq (local_processTranscription id url cb)).
  rewrite project_fresh by done.
  unfold snapshots, observable.
  cbn [snapshots_by observable_by map omap list_omap jobs set_job].
  rewrite ?Hnone, ?lookup_insert_eq.
  generalize (now s); intros t. clearbody id url cb.
  pipeline_result_cases cb.
  all: read_trace.
  all: split; check_records.
Qed.

Lemma outcome_fields_match_status_witness :
  truthy (prop body_callback "url") = true
  /\ fresh (job_id w_happy 0) s_busy
  /\ quiet w_happy (job_id w_happy 0)
  /\ Forall (holds (fun r => outcome_fields has_field r = true))
       (snapshots (job_id w_happy 0)
          (trace (run w_happy (post_transcribe body_callback) 0 s_busy))).
Proof.
  split; [reflexivity|].
  split; [exact sample_fresh_busy|].
  split; [exact (sample_quiet settle_ok)|].
  exact (proj1 (outcome_fields_match_status w_happy body_callback s_busy eq_refl
                  sample_fresh_busy (sample_quiet settle_ok))).
Defined.

(** ** C3: timestamps *)




(** ** C4: updating an id that is not in the registry *)

(** C4, refuted as stated.  Updating an id that is not in the registry
    ends without an error and leaves a record under that id. *)
Lemma update_of_absent_id_is_not_a_noop :
  let r := run w_happy (jobs_update "job_0_gone" (object [("status", VStr "downloading")]))
             0 s_empty in
  jobs s_empty !! "job_0_gone" = None
  /\ outcome r = inr tt
  /\ jobs (final r) !! "job_0_gone" = Some (object [("status", VStr "downloading")]).
Proof. vm_compute. repeat split. Qed.

(** C4, amended.  For every id that is not in the registry, the update
    idiom of the pipeline reads [undefined], spreads nothing, and stores
    the patch alone as a new record under that id; it ends normally, no
    error is signalled. *)
Theorem update_of_absent_id_creates_record w n s id patch :
  jobs s !! id = None ->
  run w (jobs_update id patch) n s =
    Result [(Did (JobsGet id) None, s); (Did (JobsSet id patch) tt, set_job id patch s)]
           (inr tt) n (set_job id patch s).
Proof.
  intros Hid. unfold run, jobs_update. cbn. rewrite Hid.
  unfold merge, spread. cbn. by rewrite (right_id_L ∅ (∪)).
Qed.

Lemma update_of_absent_id_creates_record_witness :
  jobs s_busy !! sample_id = None
  /\ jobs (final (run w_happy (jobs_update sample_id (object [("status", VStr "downloading")]))
                    0 s_busy)) !! sample_id
     = Some (object [("status", VStr "downloading")]).
Proof.
  split; [reflexivity|].
  rewrite (update_of_absent_id_creates_record w_happy 0 s_busy sample_id
             (object [("status", VStr "downloading")]) eq_refl).
  reflexivity.
Defined.

(** ** C5: terminal statuses *)

(** C5 fails on the code.  When the provider resolves with a completed
    transcript whose text is null, the pipeline writes the completed
    record, the log line that follows reads [transcript.text.length] and
    throws, and the catch block overwrites the record with a failed
    one. *)
Lemma completed_then_failed :
  let r := run w_null_text (post_transcribe body_url) 0 s_empty in
  statuses sample_id (events (trace r))
    = [VStr "queued"; VStr "processing"; VStr "downloading"; VStr "transcribing";
       VStr "completed"; VStr "failed"]
  /\ failure (jobs (final r) !! sample_id)
       = Some (VStr "Cannot read properties of null (reading 'length')").
Proof. vm_compute. split; reflexivity. Qed.

(** ** C6: failures of the media extraction step *)

(** The extraction step through the filter of the scan. *)
Lemma extraction_paths w n rs id url cb :
  settle w (S n) unit (Mkdir (temp_dir id) true) = inr tt ->
  let evs := events (trace (replay w (processTranscription id url cb) n rs)) in
  let tool := settle w (S (S n)) unit (Exec (ytdlp_command (temp_dir id) url) 300000) in
  let probe := settle w (S (S (S n))) unit (Access (audio_path id)) in
  let scan := settle w (S (S (S (S n)))) (list string) (Readdir (temp_dir id)) in
  let called := transcribes evs = [(audio_path id, ["universal-2"])] in
  let failed := failure (last (sets evs)) in
  (forall e, tool = inl e ->
     scans evs = [] /\ transcribes evs = []
     /\ failed = Some (VStr ("Download failed: " +:+ message e)))
  /\ (tool = inr tt -> probe = inr tt -> scans evs = [] /\ called)
  /\ (tool = inr tt -> forall e, probe = inl e ->
      scans evs = [temp_dir id]
      /\ (forall files, scan = inr files ->
            (forall f, find is_audio files = Some f -> called)
            /\ (find is_audio files = None ->
                transcribes evs = []
                /\ failed
                   = Some (VStr "Audio file was not created. Video may be private or unavailable.")))
      /\ (forall e', scan = inl e' ->
            transcribes evs = [] /\ failed = Some (VStr (message e')))).
Proof.
  intros Hmk. unfold audio_path, temp_dir in *.
  match goal with |- context [replay ?w ?p ?n ?rs] => pattern (replay w p n rs) end.
  apply abstractly. intros Q HQ.
  pipeline_paths_of cb.
  all: apply HQ; unfold events, sets, scans, transcribes;
    cbn [trace map fst omap list_omap last].
  all: repeat match goal with
       | |- _ /\ _ => split
       | |- forall _, _ => intro
       | H : settle ?w ?n ?X ?e = _, H' : settle ?w ?n ?X ?e = _ |- _ => rewrite H in H'
       | H : find is_audio ?l = _, H' : find is_audio ?l = _ |- _ => rewrite H in H'
       | H : inl _ = inr _ |- _ => discriminate H
       | H : inr _ = inl _ |- _ => discriminate H
       | H : Some _ = None |- _ => discriminate H
       | H : None = Some _ |- _ => discriminate H
       | H : inl _ = inl _ |- _ => injection H as <-
       | H : inr _ = inr _ |- _ => injection H as <-
       | |- _ = _ => first [reflexivity | vm_compute; reflexivity]
       end.
Qed.

(** C6.  For every run of the pipeline in which the scratch directory was
    created:
    - when the download tool fails (non-zero exit or timeout, the
      rejection of [execAsync]), nothing is scanned, the transcription is
      not invoked, and the job is failed with "Download failed: " followed
      by the tool's diagnostic text;
    - when the tool succeeds and the declared output path is there,
      nothing is scanned and the transcription is invoked;
    - when the tool succeeds and the declared output path is absent, the
      scratch directory is scanned; the transcription is then not invoked
      exactly when no file of the listing ends in .mp3, .m4a or .wav, and
      in that case the job is failed with the text that the audio file was
      not created; when some file of the listing ends in .mp3, .m4a or
      .wav, the transcription is invoked; when the scan itself fails, the
      job is failed with the diagnostic text of the scan. *)
Theorem extraction_failures w n s id url cb :
  settle w (S n) unit (Mkdir (temp_dir id) true) = inr tt ->
  let evs := events (trace (run w (processTranscription id url cb) n s)) in
  let tool := settle w (S (S n)) unit (Exec (ytdlp_command (temp_dir id) url) 300000) in
  let probe := settle w (S (S (S n))) unit (Access (audio_path id)) in
  let scan := settle w (S (S (S (S n)))) (list string) (Readdir (temp_dir id)) in
  (forall e, tool = inl e ->
     scans evs = [] /\ transcribes evs = []
     /\ failure (last (writes id evs)) = Some (VStr ("Download failed: " +:+ message e)))
  /\ (tool = inr tt -> probe = inr tt ->
      scans evs = [] /\ transcribes evs = [(audio_path id, ["universal-2"])])
  /\ (tool = inr tt -> forall e, probe = inl e ->
      scans evs = [temp_dir id]
      /\ (forall files, scan = inr files ->
            (transcribes evs = [] <-> Forall (fun f => ~ has_audio_extension f) files)
            /\ (Exists has_audio_extension files ->
                transcribes evs = [(audio_path id, ["universal-2"])])
            /\ (Forall (fun f => ~ has_audio_extension f) files ->
                failure (last (writes id evs))
                  = Some (VStr "Audio file was not created. Video may be private or unavailable.")))
      /\ (forall e', scan = inl e' ->
            transcribes evs = []
            /\ failure (last (writes id evs)) = Some (VStr (message e')))).
Proof.
  intros Hmk. cbn zeta. rewrite !writes_pipeline.
  destruct (run_replay w _ (processTranscription id url cb) n s) as (He & _ & _).
  rewrite <- He. clear He.
  destruct (extraction_paths w n
              (reads (events (trace (run w (processTranscription id url cb) n s))))
              id url cb Hmk) as (Htool & Hprobe & Hscan).
  split; [exact Htool|]. split; [exact Hprobe|].
  intros Ht e Hp. destruct (Hscan Ht e Hp) as (Hscanned & Hfiles & Herr).
  split; [exact Hscanned|]. split; [|exact Herr].
  intros files Hs. destruct (Hfiles files Hs) as [Hsome Hnone].
  destruct (find is_audio files) as [f|] eqn:Hf.
  - pose proof (Hsome f eq_refl) as Hcalled.
    pose proof (find_is_audio_Some files f Hf) as Hex.
    assert (Hno : ~ Forall (fun f => ~ has_audio_extension f) files).
    { intros Hall. by rewrite (audio_extension_not_found files Hall) in Hf. }
    split; [|split]; [|done|done].
    split; [|done]. intros Hnil. by rewrite Hnil in Hcalled.
  - destruct (Hnone eq_refl) as [Hnil Hfail].
    pose proof (find_is_audio_None files Hf) as Hall.
    split; [|split]; [done| |done].
    intros Hex. apply audio_extension_found in Hex as [f Hex]. by rewrite Hex in Hf.
Qed.

Lemma extraction_failures_witness :
  let url := VStr "https://example.com/video" in
  let found := events (trace (run w_m4a (processTranscription sample_id url VUndefined)
                                0 s_empty)) in
  let missed := events (trace (run w_no_output (processTranscription sample_id url VUndefined)
                                 0 s_empty)) in
  settle w_m4a 1 unit (Mkdir (temp_dir sample_id) true) = inr tt
  /\ Exists has_audio_extension ["audio.m4a"]
  /\ transcribes found = [(audio_path sample_id, ["universal-2"])]
  /\ settle w_no_output 1 unit (Mkdir (temp_dir sample_id) true) = inr tt
  /\ Forall (fun f => ~ has_audio_extension f) ["video.part"]
  /\ transcribes missed = []
  /\ failure (last (writes sample_id missed))
     = Some (VStr "Audio file was not created. Video may be private or unavailable.").
Proof.
  cbn zeta.
  assert (Hm4a : Exists has_audio_extension ["audio.m4a"]).
  { apply Exists_cons_hd. exists "audio". right. left. reflexivity. }
  assert (Hpart : Forall (fun f => ~ has_audio_extension f) ["video.part"]).
  { apply find_is_audio_None. reflexivity. }
  destruct (extraction_failures w_m4a 0 s_empty sample_id
              (VStr "https://example.com/video") VUndefined eq_refl) as (_ & _ & Hfound).
  destruct (Hfound eq_refl _ eq_refl) as (_ & Hfound' & _).
  destruct (Hfound' _ eq_refl) as (_ & Hcalled & _).
  destruct (extraction_failures w_no_output 0 s_empty sample_id
              (VStr "https://example.com/video") VUndefined eq_refl) as (_ & _ & Hmissed).
  destruct (Hmissed eq_refl _ eq_refl) as (_ & Hmissed' & _).
  destruct (Hmissed' _ eq_refl) as (Hnil & _ & Hfail).
  split; [reflexivity|]. split; [exact Hm4a|]. split; [exact (Hcalled Hm4a)|].
  split; [reflexivity|]. split; [exact Hpart|].
  split; [exact (proj2 Hnil Hpart)|exact (Hfail Hpart)].
Defined.

(** ** C7: the path handed to the transcription step *)

(** C7.  For every run of the pipeline in which the scratch directory was
    created, the download tool succeeded, the declared output path
    (scratch directory + audio.mp3) is absent and the fallback scan found a
    file [f] with an accepted extension other than audio.mp3: the
    transcription is invoked once, with the declared path, which is not
    the path of [f]. *)
Theorem transcribe_called_with_declared_path w n s id url cb e files f :
  settle w (S n) unit (Mkdir (temp_dir id) true) = inr tt ->
  settle w (S (S n)) unit (Exec (ytdlp_command (temp_dir id) url) 300000) = inr tt ->
  settle w (S (S (S n))) unit (Access (audio_path id)) = inl e ->
  settle w (S (S (S (S n)))) (list string) (Readdir (temp_dir id)) = inr files ->
  find is_audio files = Some f ->
  f <> "audio.mp3" ->
  transcribes (events (trace (run w (processTranscription id url cb) n s)))
    = [(audio_path id, ["universal-2"])]
  /\ path_join (temp_dir id) f <> audio_path id.
Proof.
  intros Hmk Htool Hprobe Hscan Hfound Hf. split.
  - destruct (run_replay w _ (processTranscription id url cb) n s) as (He & _ & _).
    rewrite <- He. clear He.
    generalize (reads (events (trace (run w (processTranscription id url cb) n s)))).
    intros rs.
    unfold audio_path, temp_dir in *.
    set (evs := events _). pattern (transcribes evs).
    match goal with |- ?P _ => set (Q := P) end.
    subst evs.
    pipeline_cases_with ltac:(idtac; first [known_answer | case_answer]) cb.
    all: subst Q; cbn beta; reflexivity.
  - unfold audio_path, path_join. intros H.
    by apply append_inj_r, append_inj_r in H.
Qed.

Lemma transcribe_called_with_declared_path_witness :
  let url := VStr "https://example.com/video" in
  settle w_m4a 1 unit (Mkdir (temp_dir sample_id) true) = inr tt
  /\ settle w_m4a 2 unit (Exec (ytdlp_command (temp_dir sample_id) url) 300000) = inr tt
  /\ settle w_m4a 3 unit (Access (audio_path sample_id))
     = inl (Error "ENOENT: no such file or directory, access")
  /\ settle w_m4a 4 (list string) (Readdir (temp_dir sample_id)) = inr ["audio.m4a"]
  /\ find is_audio ["audio.m4a"] = Some "audio.m4a"
  /\ "audio.m4a" <> "audio.mp3"
  /\ transcribes (events (trace (run w_m4a (processTranscription sample_id url VUndefined)
                                   0 s_empty)))
     = [(audio_path sample_id, ["universal-2"])].
Proof.
  cbn zeta. repeat (split; [reflexivity || discriminate|]).
  apply (transcribe_called_with_declared_path w_m4a 0 s_empty sample_id
           (VStr "https://example.com/video") VUndefined
           (Error "ENOENT: no such file or directory, access")
           ["audio.m4a"] "audio.m4a");
    reflexivity || discriminate.
Defined.

(** ** C8: failure of the callback *)




(** ** C9: a request without a url *)

(** C9.  For every job-creation request whose body has no truthy [url]
    (none, null, the empty string, 0 or false), the handler only sends the
    400 response with the error URL required: the state of the process is
    unchanged (the registry, its size, the timers), no answer of the world
    is consumed, and no other event is performed, so no job is created and
    no pipeline is started. *)
Theorem missing_url_rejected w n s body :
  truthy (prop body "url") = false ->
  let r := run w (post_transcribe body) n s in
  events (trace r) = [Did (Respond 400 (object [("error", VStr "URL required")])) tt]
  /\ outcome r = inr tt
  /\ steps r = n
  /\ final r = s
  /\ jobs (final r) = jobs s
  /\ size (jobs (final r)) = size (jobs s).
Proof. intros Hurl. unfold run, post_transcribe. by rewrite Hurl. Qed.

Lemma missing_url_rejected_witness :
  truthy (prop body_no_url "url") = false
  /\ final (run w_happy (post_transcribe body_no_url) 0 s_busy) = s_busy.
Proof.
  split; [reflexivity|].
  exact (proj1 (proj2 (proj2 (proj2
           (missing_url_rejected w_happy 0 s_busy body_no_url eq_refl))))).
Defined.

(** ** C10: eviction *)

(** How a run of the pipeline on the view ends: the record is terminal and
    one timer is pending, due one retention period after the end. *)
Lemma eviction_view w id url cb n c t :
  let r := runv w (processTranscription id url cb) n (View c [] t) in
  timeouts (events (trace r)) = [(DeleteJob id, retention)]
  /\ last (events (trace r)) = Some (Did (SetTimeout (DeleteJob id) retention) tt)
  /\ alarms (final r) = [vnow (final r) + retention]
  /\ is_Some (cell (final r))
  /\ holds (fun r => terminal r = true) (cell (final r)).
Proof.
  cbn zeta.
  pipeline_result_cases cb.
  all: repeat split; first [reflexivity | by eexists | vm_compute; reflexivity].
Qed.

(** C10.  For every job created by a request with a url, in a process
    where nothing else touches the job's record, whichever way the
    pipeline ends: the pipeline sets one timer, as its last event, that
    deletes the job's record after 60 * 60 * 1000 ms; when the pipeline
    has finished the record is there and its eviction is due 3600000 ms
    later; as long as less than 3600000 ms have elapsed since then the
    record is unchanged; and once 3600000 ms have elapsed, a status query
    for the job is answered 404, Job not found, whether or not the job was
    queried before. *)
Theorem eviction_after_retention w body s periods w' m :
  truthy (prop body "url") = true ->
  fresh (job_id w 0) s ->
  quiet w (job_id w 0) ->
  undisturbed (job_id w 0) periods ->
  let id := job_id w 0 in
  let r := run w (post_transcribe body) 0 s in
  timeouts (events (trace r)) = [(DeleteJob id, retention)]
  /\ last (events (trace r)) = Some (Did (SetTimeout (DeleteJob id) retention) tt)
  /\ map fst (List.filter (owns id) (timers (final r))) = [now (final r) + 3600000]
  /\ is_Some (jobs (final r) !! id)
  /\ (elapsed periods < 3600000 ->
      jobs (idle periods (final r)) !! id = jobs (final r) !! id)
  /\ (3600000 <= elapsed periods ->
      responses (events (trace (run w' (get_job id) m (idle periods (final r)))))
        = [(404, object [("error", VStr "Job not found")])]).
Proof.
  intros Hurl [Hnone Hnt] Hq Hidle. cbn zeta.
  rewrite get_job_responses, lifetime_events, lifetime_final by done. cbn zeta.
  set (id := job_id w 0) in *. set (url := prop body "url").
  set (cb := prop body "callbackUrl").
  set (q := queued_record id url (clock_iso w 2)).
  set (r := run w (processTranscription id url cb) 3 (set_job id q s)).
  pose proof (run_project id w _ _ 3 (set_job id q s) Hq
                (local_processTranscription id url cb)) as Hsim.
  fold r in Hsim. rewrite project_fresh in Hsim by done.
  destruct (eviction_view w id url cb 3 (Some q) (now s))
    as (Htimeouts & Hlast & Halarms & Hsome & _).
  rewrite <- Hsim in Htimeouts, Hlast, Halarms, Hsome.
  rewrite events_project in Htimeouts, Hlast.
  cbn [project_result final project alarms cell vnow] in Halarms, Hsome.
  rewrite timeouts_app, Htimeouts.
  split; [done|].
  split. { rewrite last_app, Hlast. done. }
  split; [exact Halarms|].
  split; [exact Hsome|].
  pose proof (project_idle id periods (final r) Hidle) as Hp.
  unfold project at 2 in Hp. rewrite Halarms in Hp.
  destruct (idle_view_pending periods (jobs (final r) !! id)
              (now (final r) + retention) (now (final r))) as [Hbefore Hafter];
    [unfold retention; lia|].
  rewrite <- Hp in Hbefore, Hafter. cbn [project cell] in Hbefore, Hafter.
  split.
  - intros Hlt. apply Hbefore. unfold retention. lia.
  - intros Hge. rewrite Hafter; [done|]. unfold retention. lia.
Qed.

Lemma eviction_after_retention_witness :
  truthy (prop body_callback "url") = true
  /\ fresh (job_id w_happy 0) s_busy
  /\ quiet w_happy (job_id w_happy 0)
  /\ undisturbed (job_id w_happy 0) [(3600000, other_acts)]
  /\ 3600000 <= elapsed [(3600000, other_acts)]
  /\ responses (events (trace (run w_happy (get_job (job_id w_happy 0)) 0
                                 (idle [(3600000, other_acts)]
                                    (final (run w_happy (post_transcribe body_callback)
                                              0 s_busy))))))
     = [(404, object [("error", VStr "Job not found")])].
Proof.
  assert (Hu : undisturbed (job_id w_happy 0) [(3600000, other_acts)])
    by (repeat constructor; discriminate).
  split; [reflexivity|].
  split; [exact sample_fresh_busy|].
  split; [exact (sample_quiet settle_ok)|].
  split; [exact Hu|].
  split; [discriminate|].
  refine (proj2 (proj2 (proj2 (proj2 (proj2
            (eviction_after_retention w_happy body_callback s_busy
               [(3600000, other_acts)] w_happy 0 eq_refl sample_fresh_busy
               (sample_quiet settle_ok) Hu))))) _).
  discriminate.
Defined.

(** * Further properties of the handlers *)

(** ** Every path of the pipeline *)

(** The facts hold on every path, whatever the registry returns. *)
Lemma pipeline_paths w id url cb n rs :
  let r := replay w (processTranscription id url cb) n rs in
  pipeline_facts w id url cb n (outcome r) (events (trace r)) (sets (events (trace r))).
Proof.
  match goal with |- context [replay ?w ?p ?n ?rs] => pattern (replay w p n rs) end.
  apply abstractly. intros Q HQ.
  pipeline_paths_of cb.
  all: apply HQ; intros r; subst r; unfold events, sets;
    cbn [outcome trace map fst omap list_omap].
  all: unfold pipeline_facts; read_events; unfold audio_path, temp_dir in *.
  all: settle_path.
Qed.

(** They hold of every run of the pipeline in the process. *)
Lemma pipeline_run_paths w id url cb n s :
  let r := run w (processTranscription id url cb) n s in
  pipeline_facts w id url cb n (outcome r) (events (trace r)) (writes id (events (trace r))).
Proof.
  cbn zeta. rewrite writes_pipeline.
  destruct (run_replay w _ (processTranscription id url cb) n s) as (He & Ho & _).
  rewrite <- He, <- Ho. apply pipeline_paths.
Qed.

(** X1.  Neither the pipeline nor the handler of a job-creation request ever
    throws or rejects, whatever the request, the registry and the answers
    of the world: every rejection of an awaited operation, and the TypeError
    of the success log line, is caught inside the pipeline.  (The handler
    does not await the pipeline and attaches no catch to it.) *)
Theorem handlers_never_reject w n s id url cb body :
  outcome (run w (processTranscription id url cb) n s) = inr tt
  /\ outcome (run w (post_transcribe body) n s) = inr tt.
Proof.
  pose proof (pipeline_run_paths w) as H. unfold pipeline_facts in H. cbn zeta in H.
  split; [apply H|].
  destruct (truthy (prop body "url")) eqn:Hurl.
  - rewrite run_post_transcribe by done. cbn zeta. cbn [outcome]. apply H.
  - unfold run, post_transcribe. by rewrite Hurl.
Qed.

(** X2.  In every run of the pipeline for a url that is a string, the
    awaited operations are taken from fs.mkdir, execAsync, fs.access,
    fs.readdir, transcribe, fetch, fs.rm in that order, each at most once
    (nothing is retried); the first is fs.mkdir; the last is fs.rm, called
    exactly once, on the scratch directory with recursive and force; and
    the download command, with the url between double quotes as its last
    argument, is run exactly when the scratch directory was created, once,
    with the 300000 ms timeout. *)
Theorem pipeline_steps_once_in_order w n s id (u : string) cb :
  let evs := events (trace (run w (processTranscription id (VStr u) cb) n s)) in
  awaited evs `sublist_of` pipeline_steps
  /\ NoDup (awaited evs)
  /\ head (awaited evs) = Some "fs.mkdir"
  /\ last (awaited evs) = Some "fs.rm"
  /\ removals evs = [(temp_dir id, true, true)]
  /\ downloads evs
     = match settle w (S n) unit (Mkdir (temp_dir id) true) with
       | inr _ => [("yt-dlp -x --audio-format mp3 --audio-quality 0 -o "
                    +:+ dquote +:+ (temp_dir id +:+ "/audio.%(ext)s") +:+ dquote
                    +:+ " " +:+ dquote +:+ u +:+ dquote, 300000)]
       | inl _ => []
       end.
Proof.
  destruct (pipeline_run_paths w id (VStr u) cb n s)
    as (_ & _ & Hsub & Hhead & Hlast & Hrm & _ & _ & Hdl & _).
  cbn zeta. repeat split; try done.
  eapply sublist_NoDup; [|exact Hsub]. unfold pipeline_steps.
  apply (bool_decide_unpack _). vm_compute. exact I.
Qed.

(** X3.  In every run of the pipeline, the last record written for the job
    is terminal, and the callback is attempted exactly when callbackUrl is
    truthy: then once, as a POST to callbackUrl whose payload is that last
    record; otherwise never. *)
Theorem callback_carries_final_record w n s id url cb :
  let evs := events (trace (run w (processTranscription id url cb) n s)) in
  exists p,
    last (writes id evs) = Some p
    /\ terminal p = true
    /\ notifications evs = (if truthy cb then [(cb, "POST", p)] else []).
Proof.
  destruct (pipeline_run_paths w id url cb n s) as (_ & _ & _ & _ & _ & _ & H & _).
  cbn zeta. destruct (last _) as [p|]; [|done]. by exists p.
Qed.

(** X4.  In every run of the pipeline, transcribe is called at most once,
    and how it settles decides the job's last record:
    - not called, or rejected with an error [e]: no completed record is
      written; when rejected, the job is failed with the message of [e];
    - resolved with status "error": no completed record is written, and the
      job is failed with "AssemblyAI error: " followed by the transcript's
      error;
    - resolved with any other status: a completed record is written; it
      stays the last record, with the transcript's text as [transcript],
      unless the text is undefined or null, in which case the last record is
      a failed one with the TypeError of reading [length]. *)
Theorem transcription_decides_outcome w n s id url cb :
  let evs := events (trace (run w (processTranscription id url cb) n s)) in
  let fin := last (writes id evs) in
  let written := statuses id evs in
  match transcribed evs with
  | [] => (VStr "completed" ∉ written)
  | [inl e] =>
      (VStr "completed" ∉ written)
      /\ failure fin = Some (VStr (message e))
  | [inr t] =>
      if String.eqb (status t) "error" then
        (VStr "completed" ∉ written)
        /\ failure fin = Some (VStr ("AssemblyAI error: " +:+ to_string (error t)))
      else
        match text t with
        | VUndefined =>
            last written = Some (VStr "failed")
            /\ failure fin
               = Some (VStr "Cannot read properties of undefined (reading 'length')")
        | VNull =>
            last written = Some (VStr "failed")
            /\ failure fin
               = Some (VStr "Cannot read properties of null (reading 'length')")
        | _ =>
            last written = Some (VStr "completed")
            /\ fin ≫= (fun p => p !! "transcript") = Some (text t)
        end
  | _ => False
  end.
Proof. apply (pipeline_run_paths w id url cb n s). Qed.

(** X5.  When the scratch directory cannot be created, the pipeline writes
    the statuses processing and failed only, the job is failed with the
    message of that error, the download command is never run, and the only
    operations awaited afterwards are the callback (when callbackUrl is
    truthy) and the removal of the scratch directory. *)
Theorem workspace_failure w n s id url cb e :
  settle w (S n) unit (Mkdir (temp_dir id) true) = inl e ->
  let evs := events (trace (run w (processTranscription id url cb) n s)) in
  awaited evs = (if truthy cb then ["fs.mkdir"; "fetch"; "fs.rm"] else ["fs.mkdir"; "fs.rm"])
  /\ downloads evs = []
  /\ statuses id evs = [VStr "processing"; VStr "failed"]
  /\ failure (last (writes id evs)) = Some (VStr (message e)).
Proof.
  intros He.
  destruct (pipeline_run_paths w id url cb n s)
    as (_ & _ & _ & _ & _ & _ & _ & _ & Hdl & H & _).
  cbn zeta. destruct (H e He) as (Hops & Hst & Hfail).
  rewrite He in Hdl. done.
Qed.

Lemma workspace_failure_witness :
  let url := VStr "https://example.com/video" in
  let evs := events (trace (run w_no_space (processTranscription sample_id url VUndefined)
                              0 s_empty)) in
  settle w_no_space 1 unit (Mkdir (temp_dir sample_id) true)
    = inl (Error "ENOSPC: no space left on device, mkdir")
  /\ failure (last (writes sample_id evs))
     = Some (VStr "ENOSPC: no space left on device, mkdir").
Proof.
  cbn zeta. split; [reflexivity|].
  exact (proj2 (proj2 (proj2
           (workspace_failure w_no_space 0 s_empty sample_id
              (VStr "https://example.com/video") VUndefined
              (Error "ENOSPC: no space left on device, mkdir") eq_refl)))).
Defined.

(** X6.  In every run of the pipeline for a job id without a slash, every
    path handed to fs.mkdir, fs.access, fs.readdir, fs.rm and to the
    transcription is either the job's scratch directory
    /tmp/transcribe_<jobId> or the declared output path, audio.mp3 in that
    directory; no other path is handed out. *)
Theorem files_stay_in_scratch_directory w n s id url cb :
  lacks slash id = true ->
  Forall (fun path => path = "/tmp/transcribe_" +:+ id
                      \/ path = "/tmp/transcribe_" +:+ id +:+ "/audio.mp3")
         (paths (events (trace (run w (processTranscription id url cb) n s)))).
Proof. intros _. apply (pipeline_run_paths w id url cb n s). Qed.

Lemma files_stay_in_scratch_directory_witness :
  lacks slash sample_id = true
  /\ Forall (fun path => path = "/tmp/transcribe_" +:+ sample_id
                         \/ path = "/tmp/transcribe_" +:+ sample_id +:+ "/audio.mp3")
       (paths (events (trace (run w_m4a (processTranscription sample_id
                                           (VStr "https://example.com/video") VUndefined)
                                    0 s_empty)))).
Proof.
  split; [reflexivity|].
  exact (files_stay_in_scratch_directory w_m4a 0 s_empty sample_id
           (VStr "https://example.com/video") VUndefined eq_refl).
Defined.

(** X7.  In every run of the handler of a job-creation request and of its
    pipeline, each jobs.get is followed by its jobs.set before anything is
    awaited: no other handler can run between the read and the write of a
    registry update, so an update never writes back a stale record. *)
Theorem registry_updates_are_atomic w n s body :
  atomic_updates false (events (trace (run w (post_transcribe body) n s))) = true.
Proof.
  destruct (truthy (prop body "url")) eqn:Hurl.
  - rewrite lifetime_events by done. cbn zeta. cbn [app atomic_updates].
    apply (pipeline_run_paths w).
  - unfold run, post_transcribe. by rewrite Hurl.
Qed.

(** X8.  A job-creation request with a truthy url is answered exactly once
    over the whole lifetime of the job: with 200 and the body status
    queued, jobId, url, message.  The response is the fifth event of the
    handler; it is sent after the record has been written to the registry
    and before any operation is awaited, and the pipeline that follows
    sends no response. *)
Theorem accepted_request_answered_once w body n s :
  truthy (prop body "url") = true ->
  let r := run w (post_transcribe body) n s in
  let id := job_id w n in
  let answer := object [("status", VStr "queued"); ("jobId", VStr id);
                        ("url", prop body "url");
                        ("message", VStr "Job queued for processing")] in
  let queued := queued_record id (prop body "url") (clock_iso w (S (S n))) in
  responses (events (trace r)) = [(200, answer)]
  /\ trace r !! 4%nat = Some (Did (Respond 200 answer) tt, set_job id queued s)
  /\ awaited (events (take 4 (trace r))) = [].
Proof.
  intros Hurl. cbn zeta.
  rewrite lifetime_events by done. cbn zeta.
  rewrite run_post_transcribe by done. cbn zeta. cbn [trace].
  destruct (pipeline_run_paths w (job_id w n) (prop body "url") (prop body "callbackUrl")
              (S (S (S n)))
              (set_job (job_id w n)
                 (queued_record (job_id w n) (prop body "url") (clock_iso w (S (S n)))) s))
    as (_ & Hres & _).
  unfold responses in Hres |- *. rewrite omap_app, Hres.
  repeat split.
Qed.

Lemma accepted_request_answered_once_witness :
  truthy (prop body_callback "url") = true
  /\ awaited (events (take 4 (trace (run w_happy (post_transcribe body_callback) 0 s_busy))))
     = [].
Proof.
  split; [reflexivity|].
  exact (proj2 (proj2
           (accepted_request_answered_once w_happy body_callback 0 s_busy eq_refl))).
Defined.

(** ** The records of other jobs *)

Lemma no_timer_owns k s : no_timer k s <-> List.filter (owns k) (timers s) = [].
Proof.
  unfold no_timer. induction (timers s) as [|tm T IH]; [done|].
  rewrite Forall_cons. cbn [List.filter]. unfold owns at 1.
  case_bool_decide as Hk; split.
  - by intros [? _].
  - done.
  - intros [_ H]. by apply IH.
  - intros H. split; [done|]. by apply IH.
Qed.

Lemma pass_elsewhere k d acts s :
  Forall (fun a => action_target a <> k) acts ->
  no_timer k s ->
  jobs (pass d acts s) !! k = jobs s !! k /\ no_timer k (pass d acts s).
Proof.
  intros Hacts Hk. pose proof (project_pass k d acts s Hacts) as H.
  apply no_timer_owns in Hk. unfold project, passv in H. rewrite Hk in H.
  cbn in H. injection H as Hjobs Htimers _. split; [done|].
  apply no_timer_owns.
  by destruct (List.filter (owns k) (timers (pass d acts s))).
Qed.

Lemma handle_elsewhere k id w n X (e : event X) s :
  k <> id -> quiet w k -> event_local id e -> no_timer k s ->
  jobs (handle w n X e s).2 !! k = jobs s !! k /\ no_timer k (handle w n X e s).2.
Proof.
  intros Hne Hq He Hk. destruct e; cbn in *; subst; try done.
  - by rewrite lookup_insert_ne.
  - by rewrite lookup_delete_ne.
  - split; [done|]. apply Forall_app. split; [done|]. by repeat constructor.
  - by apply pass_elsewhere.
Qed.

(** A program that stays with its job leaves the record of every other job
    as it is, and sets no timer on it. *)
Lemma run_elsewhere k id w R (p : prog R) n s :
  k <> id -> quiet w k -> local id p -> no_timer k s ->
  Forall (fun c => c = jobs s !! k) (snapshots k (trace (run w p n s)))
  /\ jobs (final (run w p n s)) !! k = jobs s !! k
  /\ no_timer k (final (run w p n s)).
Proof.
  intros Hne Hq. unfold run. revert n s.
  induction p as [a|e|X e k' IH]; intros n s Hl Hk; cbn [interp trace final];
    [by split|by split|].
  destruct Hl as [He Hl].
  destruct (handle_elsewhere k id w n X e s Hne Hq He Hk) as [Hj Hk'].
  destruct (handle w n X e s) as [[x n'] s']. cbn [snd] in Hj, Hk'.
  cbn [trace final]. destruct (IH x n' s' (Hl x) Hk') as (Htr & Hfin & Hnt).
  rewrite Hj in Htr, Hfin. split; [|done].
  unfold snapshots, snapshots_by in *. cbn [map]. by constructor.
Qed.

(** X9.  Handling a job-creation request, pipeline included, never changes
    the record of another job: for every id [k] other than the id of the
    new job, if nothing else in the process touches the record of [k] and
    no eviction of [k] is pending, the record of [k] is the same at every
    point of the run and when the pipeline has finished. *)
Theorem other_jobs_untouched w body n s k :
  k <> job_id w n ->
  quiet w k ->
  no_timer k s ->
  let r := run w (post_transcribe body) n s in
  Forall (fun c => c = jobs s !! k) (snapshots k (trace r))
  /\ jobs (final r) !! k = jobs s !! k.
Proof.
  intros Hne Hq Hk. cbn zeta.
  destruct (truthy (prop body "url")) eqn:Hurl.
  - rewrite run_post_transcribe by done. cbn zeta. cbn [trace final].
    set (id := job_id w n) in *. set (q := queued_record _ _ _).
    destruct (run_elsewhere k id w _
                (processTranscription id (prop body "url") (prop body "callbackUrl"))
                (S (S (S n))) (set_job id q s) Hne Hq
                (local_processTranscription _ _ _)) as (Htr & Hfin & _); [done|].
    cbn [jobs set_job] in Htr, Hfin. rewrite lookup_insert_ne in Htr, Hfin by done.
    split; [|done]. rewrite snapshots_app. apply Forall_app. split; [|done].
    unfold snapshots, snapshots_by. cbn [map jobs set_job].
    rewrite lookup_insert_ne by done. by repeat constructor.
  - unfold run, post_transcribe. rewrite Hurl. cbn. by repeat constructor.
Qed.

Lemma other_jobs_untouched_witness :
  bystander_id <> job_id w_happy 0
  /\ quiet w_happy bystander_id
  /\ no_timer bystander_id s_bystander
  /\ jobs (final (run w_happy (post_transcribe body_callback) 0 s_bystander)) !! bystander_id
     = Some bystander_record.
Proof.
  assert (Hq : quiet w_happy bystander_id)
    by (apply quiet_world_of; repeat constructor; discriminate).
  assert (Hk : no_timer bystander_id s_bystander) by (repeat constructor; discriminate).
  split; [discriminate|]. split; [exact Hq|]. split; [exact Hk|].
  exact (proj2 (other_jobs_untouched w_happy body_callback 0 s_bystander bystander_id
                  ltac:(discriminate) Hq Hk)).
Defined.

(** ** The record during the job's lifetime *)

(** The pipeline on the view of a job that was just created. *)
Lemma pipeline_on_view w id url cb n createdAt t :
  let r := runv w (processTranscription id url cb) n
             (View (Some (queued_record id url createdAt)) [] t) in
  let cells := snapshots_by cell (trace r) in
  let seen := observable_by cell (trace r) in
  let phases := status_during_by cell (trace r) in
  Forall (fun c => c ≫= (fun p => p !! "jobId") = Some (VStr id)
                   /\ c ≫= (fun p => p !! "url") = Some url) cells
  /\ Forall (fun c => exists p, c = Some p /\ status_of p ∈ visible_statuses) seen
  /\ Forall (fun x => exists v, x.2 = Some v /\ v ∈ statuses_of_step x.1) phases.
Proof.
  match goal with |- context [runv ?w ?p ?n ?v] => pattern (runv w p n v) end.
  apply abstractly. intros Q HQ.
  pipeline_paths_of cb.
  all: apply HQ; intros r cells seen phases; subst r;
    unfold snapshots_by, observable_by, status_during_by in cells, seen, phases;
    cbn [trace omap list_omap map fmap list_fmap option_map option_fmap app fst snd
         io_name cell alarms vnow passv existsb List.filter] in cells, seen, phases;
    subst cells seen phases.
  all: split; [|split];
    [repeat (apply Forall_cons_2; [split; vm_compute; reflexivity|]); apply Forall_nil_2
    |repeat (apply Forall_cons_2;
             [eexists; split; [reflexivity|decide_by_computation]|]); apply Forall_nil_2
    |repeat (apply Forall_cons_2;
             [eexists; split; [vm_compute; reflexivity|decide_by_computation]|]);
     apply Forall_nil_2].
Qed.

Lemma status_during_project id R (r : result state R) :
  status_during id (trace r) = status_during_by cell (trace (project_result id r)).
Proof.
  unfold status_during, status_during_by, project_result. cbn [trace].
  induction (trace r) as [|[d s] tr IH]; [done|]. cbn. rewrite IH.
  destruct d as [X e x]. by destruct e.
Qed.

(** The states of a job's lifetime, read off the pipeline's run on the
    view. *)
Lemma lifetime_on_view w body n s :
  truthy (prop body "url") = true ->
  fresh (job_id w n) s ->
  quiet w (job_id w n) ->
  let id := job_id w n in
  let url := prop body "url" in
  let queued := queued_record id url (clock_iso w (S (S n))) in
  let r := run w (post_transcribe body) n s in
  let rv := runv w (processTranscription id url (prop body "callbackUrl")) (S (S (S n)))
              (View (Some queued) [] (now s)) in
  snapshots id (drop 3 (trace r)) = (Some queued :: Some queued :: snapshots_by cell (trace rv))
  /\ observable id (trace r) = observable_by cell (trace rv)
  /\ status_during id (trace r) = status_during_by cell (trace rv).
Proof.
  intros Hurl [Hnone Hnt] Hq. cbn zeta.
  rewrite run_post_transcribe by done. cbn zeta. cbn [trace app drop].
  set (id := job_id w n) in *.
  rewrite <- (project_fresh id s _ Hnt).
  rewrite <- (run_project id w _ _ _ _ Hq (local_processTranscription id _ _)).
  rewrite <- snapshots_project, <- observable_project, <- status_during_project.
  unfold snapshots, observable, status_during, snapshots_by, observable_by,
    status_during_by.
  cbn [map omap list_omap jobs set_job]. by rewrite lookup_insert_eq.
Qed.

(** X10.  For every job created by a request with a url, in a process where
    nothing else touches the job's record: from the event that creates the
    record (the fourth of the handler) to the end of the pipeline, the
    registry holds a record under the job's id at every point, and that
    record carries the job's id as [jobId] and the url of the request as
    [url]. *)
Theorem record_carries_id_and_url w body n s :
  truthy (prop body "url") = true ->
  fresh (job_id w n) s ->
  quiet w (job_id w n) ->
  Forall (fun c => c ≫= (fun p => p !! "jobId") = Some (VStr (job_id w n))
                   /\ c ≫= (fun p => p !! "url") = Some (prop body "url"))
         (snapshots (job_id w n) (drop 3 (trace (run w (post_transcribe body) n s)))).
Proof.
  intros Hurl Hfresh Hq.
  destruct (lifetime_on_view w body n s Hurl Hfresh Hq) as (-> & _ & _).
  generalize (job_id w n) (prop body "url") (prop body "callbackUrl"). intros id url cb.
  do 2 (apply Forall_cons_2; [split; vm_compute; reflexivity|]).
  apply (pipeline_on_view w id url cb).
Qed.

Lemma record_carries_id_and_url_witness :
  truthy (prop body_callback "url") = true
  /\ fresh (job_id w_happy 0) s_busy
  /\ quiet w_happy (job_id w_happy 0)
  /\ Forall (fun c => c ≫= (fun p => p !! "jobId") = Some (VStr (job_id w_happy 0))
                      /\ c ≫= (fun p => p !! "url") = Some (prop body_callback "url"))
       (snapshots (job_id w_happy 0)
          (drop 3 (trace (run w_happy (post_transcribe body_callback) 0 s_busy)))).
Proof.
  split; [reflexivity|].
  split; [exact sample_fresh_busy|].
  split; [exact (sample_quiet settle_ok)|].
  exact (record_carries_id_and_url w_happy body_callback 0 s_busy eq_refl
           sample_fresh_busy (sample_quiet settle_ok)).
Defined.

(** What the pipeline does before it first yields: it reads the record and
    writes it back with the status processing. *)
Lemma pipeline_before_await w id url cb n s :
  before_await (events (trace (run w (processTranscription id url cb) n s)))
  = [Did (JobsGet id) (jobs s !! id);
     Did NewDateISO (clock_iso w n);
     Did (JobsSet id (merge (jobs s !! id)
                        (object [("status", VStr "processing");
                                 ("startedAt", VStr (clock_iso w n))]))) tt].
Proof. reflexivity. Qed.

Lemma terminal_visible p : terminal p = true -> status_of p ∈ visible_statuses.
Proof.
  unfold terminal. intros [H|H]%orb_prop; apply bool_decide_eq_true in H; rewrite H;
    unfold visible_statuses; set_solver.
Qed.

(** X11.  For every job created by a request with a url, in a process where
    nothing else touches the job's record: the handler writes the status
    queued and then the status processing before it first awaits anything,
    that is, before any other handler can run; at every point where
    another handler can run during the job's lifetime (after each await),
    the job's record is there and its status is one of processing,
    downloading, transcribing, completed, failed; and so it is when the
    pipeline has finished.  No status query after the request finds the
    status queued. *)
Theorem status_queries_never_find_queued w body n s :
  truthy (prop body "url") = true ->
  fresh (job_id w n) s ->
  quiet w (job_id w n) ->
  let r := run w (post_transcribe body) n s in
  statuses (job_id w n) (before_await (events (trace r)))
    = [VStr "queued"; VStr "processing"]
  /\ Forall (fun c => exists p, c = Some p /\ status_of p ∈ visible_statuses)
            (observable (job_id w n) (trace r))
  /\ (exists p, jobs (final r) !! job_id w n = Some p /\ status_of p ∈ visible_statuses).
Proof.
  intros Hurl Hfresh Hq. cbn zeta. split; [|split].
  - rewrite lifetime_events by done. cbn zeta. cbn [app before_await].
    rewrite pipeline_before_await. unfold statuses, writes.
    cbn [omap list_omap map jobs set_job]. rewrite lookup_insert_eq.
    destruct (decide (job_id w n = job_id w n)); [|done].
    cbn [map]. rewrite status_of_update. reflexivity.
  - destruct (lifetime_on_view w body n s Hurl Hfresh Hq) as (_ & -> & _).
    apply (pipeline_on_view w).
  - destruct Hfresh as [Hnone Hnt].
    rewrite lifetime_final, final_project by done. cbn zeta.
    rewrite (run_project _ w _ _ _ _ Hq (local_processTranscription _ _ _)).
    rewrite project_fresh by done.
    destruct (eviction_view w (job_id w n) (prop body "url") (prop body "callbackUrl")
                (S (S (S n)))
                (Some (queued_record (job_id w n) (prop body "url") (clock_iso w (S (S n)))))
                (now s)) as (_ & _ & _ & [p Hp] & Hterm).
    cbn zeta in Hp, Hterm. rewrite Hp in Hterm |- *. exists p. split; [done|].
    by apply terminal_visible.
Qed.

Lemma status_queries_never_find_queued_witness :
  let r := run w_happy (post_transcribe body_callback) 0 s_busy in
  truthy (prop body_callback "url") = true
  /\ fresh (job_id w_happy 0) s_busy
  /\ quiet w_happy (job_id w_happy 0)
  /\ statuses (job_id w_happy 0) (before_await (events (trace r)))
     = [VStr "queued"; VStr "processing"]
  /\ (exists p, jobs (final r) !! job_id w_happy 0 = Some p
               /\ status_of p ∈ visible_statuses).
Proof.
  cbn zeta.
  split; [reflexivity|].
  split; [exact sample_fresh_busy|].
  split; [exact (sample_quiet settle_ok)|].
  split.
  - exact (proj1 (status_queries_never_find_queued w_happy body_callback 0 s_busy eq_refl
                    sample_fresh_busy (sample_quiet settle_ok))).
  - exact (proj2 (proj2 (status_queries_never_find_queued w_happy body_callback 0 s_busy
                           eq_refl sample_fresh_busy (sample_quiet settle_ok)))).
Defined.

(** X12.  For every job created by a request with a url, in a process where
    nothing else touches the job's record: while fs.mkdir is in flight the
    status of the job's record is processing; while the download command,
    fs.access or fs.readdir is in flight it is downloading; while
    transcribe is in flight it is transcribing; and while the callback's
    fetch or the cleanup's fs.rm is in flight it is completed or failed. *)
Theorem status_while_awaiting w body n s :
  truthy (prop body "url") = true ->
  fresh (job_id w n) s ->
  quiet w (job_id w n) ->
  Forall (fun x => exists v, x.2 = Some v /\ v ∈ statuses_of_step x.1)
         (status_during (job_id w n) (trace (run w (post_transcribe body) n s))).
Proof.
  intros Hurl Hfresh Hq.
  destruct (lifetime_on_view w body n s Hurl Hfresh Hq) as (_ & _ & ->).
  apply (pipeline_on_view w).
Qed.

Lemma status_while_awaiting_witness :
  truthy (prop body_callback "url") = true
  /\ fresh (job_id w_happy 0) s_busy
  /\ quiet w_happy (job_id w_happy 0)
  /\ Forall (fun x => exists v, x.2 = Some v /\ v ∈ statuses_of_step x.1)
       (status_during (job_id w_happy 0)
          (trace (run w_happy (post_transcribe body_callback) 0 s_busy))).
Proof.
  split; [reflexivity|].
  split; [exact sample_fresh_busy|].
  split; [exact (sample_quiet settle_ok)|].
  exact (status_while_awaiting w_happy body_callback 0 s_busy eq_refl
           sample_fresh_busy (sample_quiet settle_ok)).
Defined.

(** ** Job ids *)

Lemma pretty_N_char_digit (x : N) : Ascii.eqb (pretty_N_char x) underscore = false.
Proof.
  unfold pretty_N_char.
  repeat match goal with
         | |- context [match ?p with _ => _ end] => destruct p
         end; reflexivity.
Qed.

Lemma lacks_pretty_N_go (x : N) (s : string) :
  lacks underscore s = true -> lacks underscore (pretty_N_go x s) = true.
Proof.
  revert s. induction (N.lt_wf_0 x) as [x _ IH]. intros s Hs.
  destruct (decide (x = 0%N)) as [->|Hx].
  - by rewrite pretty_N_go_0.
  - rewrite pretty_N_go_step by lia. apply IH.
    + apply N.div_lt; lia.
    + cbn [lacks]. by rewrite pretty_N_char_digit.
Qed.

(** The decimal rendering of an integer holds no underscore. *)
Lemma lacks_pretty_Z (x : Z) : lacks underscore (pretty x) = true.
Proof.
  destruct x as [|p|p]; [done| |].
  - unfold pretty, pretty_Z, pretty, pretty_positive, pretty, pretty_N.
    by apply lacks_pretty_N_go.
  - unfold pretty, pretty_Z, pretty, pretty_positive, pretty, pretty_N.
    change (lacks underscore (String (Ascii.ascii_of_nat 45) (pretty_N_go (N.pos p) ""))
            = true).
    cbn [lacks]. by rewrite lacks_pretty_N_go.
Qed.

Lemma split_at_delimiter (c : Ascii.ascii) (u v x y : string) :
  lacks c u = true -> lacks c v = true ->
  u +:+ String c x = v +:+ String c y -> u = v /\ x = y.
Proof.
  revert v. induction u as [|a u IH]; intros [|b v] Hu Hv H; cbn in Hu, Hv.
  - by injection H as ->.
  - injection H as <- _. by rewrite Ascii.eqb_refl in Hv.
  - injection H as -> _. by rewrite Ascii.eqb_refl in Hu.
  - apply andb_prop in Hu as [_ Hu]. apply andb_prop in Hv as [_ Hv].
    injection H as -> H. destruct (IH v Hu Hv H) as [-> ->]. done.
Qed.

(** X13.  Two job-creation requests get the same job id exactly when they
    read the same value of Date.now() and their random strings agree on
    the nine characters that the id takes from them. *)
Theorem job_ids_collide w n w' n' :
  job_id w n = job_id w' n' <->
  clock_ms w n = clock_ms w' n'
  /\ String.substring 2 9 (random36 w (S n)) = String.substring 2 9 (random36 w' (S n')).
Proof.
  unfold job_id. split.
  - intros H. apply append_inj_r in H.
    change ("_" +:+ ?x) with (String underscore x) in H.
    apply split_at_delimiter in H as [H ->]; [|apply lacks_pretty_Z..].
    split; [|done]. by apply (inj pretty).
  - by intros [-> ->].
Qed.

(** ** The fallback scan *)

(** X14.  The fallback scan finds a file exactly when the directory listing
    holds a name that ends in .mp3, .m4a or .wav (in lower case; the name may
    consist of the extension alone), and the file it finds is such a name of
    the listing. *)
Theorem fallback_scan_accepts (files : list string) :
  (is_Some (find is_audio files) <->
   exists f p, In f files /\ (f = p +:+ ".mp3" \/ f = p +:+ ".m4a" \/ f = p +:+ ".wav"))
  /\ (forall f, find is_audio files = Some f ->
      In f files /\ exists p, f = p +:+ ".mp3" \/ f = p +:+ ".m4a" \/ f = p +:+ ".wav").
Proof.
  assert (Hfound : forall f, find is_audio files = Some f ->
            In f files /\ exists p, f = p +:+ ".mp3" \/ f = p +:+ ".m4a" \/ f = p +:+ ".wav").
  { intros f Hf. apply find_some in Hf as [Hin Ha]. split; [done|]. by apply is_audio_spec. }
  split; [|exact Hfound]. split.
  - intros [f Hf]. destruct (Hfound f Hf) as [Hin [p Hp]]. by exists f, p.
  - intros (f & p & Hin & Hp). destruct (find is_audio files) as [g|] eqn:Hg; [by eexists|].
    pose proof (find_none _ _ Hg f Hin) as Hno.
    assert (is_audio f = true) as Hyes by (apply is_audio_spec; by exists p).
    congruence.
Qed.

(** ** The registry after the job *)

Lemma alone_quiet w k : alone w -> quiet w k.
Proof. intros H n. rewrite H. constructor. Qed.

Lemma uneventful_undisturbed k periods : uneventful periods -> undisturbed k periods.
Proof.
  intros H. eapply Forall_impl; [exact H|]. intros p Hp. cbn in Hp. rewrite Hp. constructor.
Qed.

Lemma idle_view_settled (periods : list (Z * list action)) c t :
  cell (foldl (fun v p => passv p.1 v) (View c [] t) periods) = c.
Proof.
  revert t. induction periods as [|[d acts] periods IH]; intros t; [done|].
  cbn. apply IH.
Qed.

Lemma idle_elsewhere k periods s :
  undisturbed k periods -> no_timer k s ->
  jobs (idle periods s) !! k = jobs s !! k.
Proof.
  intros Hu Hk. pose proof (project_idle k periods s Hu) as H.
  apply no_timer_owns in Hk. unfold project at 2 in H. rewrite Hk in H.
  cbn [map] in H. apply (f_equal cell) in H. by rewrite idle_view_settled in H.
Qed.

Lemma no_timers_no_timer k s : timers s = [] -> no_timer k s.
Proof. unfold no_timer. intros ->. constructor. Qed.

(** The registry over a job's lifetime, in a process that does nothing
    else. *)
Lemma registry_over_lifetime w body n s periods :
  truthy (prop body "url") = true ->
  jobs s !! job_id w n = None ->
  timers s = [] ->
  alone w ->
  uneventful periods ->
  let r := run w (post_transcribe body) n s in
  (exists p, terminal p = true /\ jobs (final r) = <[job_id w n := p]> (jobs s))
  /\ (elapsed periods < retention ->
      jobs (idle periods (final r)) = jobs (final r))
  /\ (retention <= elapsed periods ->
      jobs (idle periods (final r)) = jobs s).
Proof.
  intros Hurl Hnone Htimers Halone Hidle. cbn zeta.
  rewrite lifetime_final by done. cbn zeta.
  set (id := job_id w n) in *. set (url := prop body "url").
  set (cb := prop body "callbackUrl").
  set (q := queued_record id url (clock_iso w (S (S n)))).
  set (r := run w (processTranscription id url cb) (S (S (S n))) (set_job id q s)).
  assert (Hnt : forall k, no_timer k s) by (intros k; by apply no_timers_no_timer).
  pose proof (run_project id w _ _ (S (S (S n))) (set_job id q s) (alone_quiet w id Halone)
                (local_processTranscription id url cb)) as Hsim.
  fold r in Hsim. rewrite project_fresh in Hsim by done.
  destruct (eviction_view w id url cb (S (S (S n))) (Some q) (now s))
    as (_ & _ & Halarms & [p Hp] & Hterm).
  rewrite <- Hsim in Halarms, Hp, Hterm.
  cbn [project_result final project alarms cell vnow] in Halarms, Hp, Hterm.
  rewrite Hp in Hterm. cbn [holds] in Hterm.
  assert (Hothers : forall k, k <> id ->
            jobs (final r) !! k = jobs s !! k /\ no_timer k (final r)).
  { intros k Hk.
    destruct (run_elsewhere k id w _ (processTranscription id url cb) (S (S (S n)))
                (set_job id q s) Hk (alone_quiet w k Halone)
                (local_processTranscription _ _ _)) as (_ & Hfin & Hnt'); [apply Hnt|].
    fold r in Hfin, Hnt'. cbn [jobs set_job] in Hfin.
    by rewrite lookup_insert_ne in Hfin. }
  pose proof (project_idle id periods (final r) (uneventful_undisturbed id periods Hidle))
    as Hproj.
  unfold project at 2 in Hproj. rewrite Halarms in Hproj.
  destruct (idle_view_pending periods (jobs (final r) !! id)
              (now (final r) + retention) (now (final r))) as [Hbefore Hafter];
    [unfold retention; lia|].
  rewrite <- Hproj in Hbefore, Hafter. cbn [project cell] in Hbefore, Hafter.
  split; [|split].
  - exists p. split; [done|]. apply map_eq. intros k.
    destruct (decide (k = id)) as [->|Hk].
    + by rewrite lookup_insert_eq.
    + rewrite lookup_insert_ne by done. by apply Hothers.
  - intros Hlt. apply map_eq. intros k.
    destruct (decide (k = id)) as [->|Hk].
    + apply Hbefore. lia.
    + apply idle_elsewhere; [by apply uneventful_undisturbed|by apply Hothers].
  - intros Hge. apply map_eq. intros k.
    destruct (decide (k = id)) as [->|Hk].
    + rewrite Hafter by lia. done.
    + rewrite idle_elsewhere; [by apply Hothers|by apply uneventful_undisturbed
                              |by apply Hothers].
Qed.

Lemma sample_alone st : alone (world_of st []).
Proof. intros n. reflexivity. Qed.

(** X15.  In a process that handles nothing but one job-creation request
    with a url and a fresh id, and that has no timer pending: when the
    pipeline has finished, the registry is the registry from before the
    request with one more record, the job's terminal record; as long as
    less than 3600000 ms have elapsed since then it stays so; and once
    3600000 ms have elapsed, the registry is again the registry from before
    the request. *)
Theorem registry_restored_after_eviction w body n s periods :
  truthy (prop body "url") = true ->
  jobs s !! job_id w n = None ->
  timers s = [] ->
  alone w ->
  uneventful periods ->
  let r := run w (post_transcribe body) n s in
  (exists p, terminal p = true /\ jobs (final r) = <[job_id w n := p]> (jobs s))
  /\ (elapsed periods < retention ->
      jobs (idle periods (final r)) = jobs (final r))
  /\ (retention <= elapsed periods ->
      jobs (idle periods (final r)) = jobs s).
Proof. apply registry_over_lifetime. Qed.

Lemma registry_restored_after_eviction_witness :
  truthy (prop body_callback "url") = true
  /\ jobs s_empty !! job_id w_provider_down 0 = None
  /\ timers s_empty = []
  /\ alone w_provider_down
  /\ uneventful [(3600000, [])]
  /\ retention <= elapsed [(3600000, [])]
  /\ jobs (idle [(3600000, [])]
             (final (run w_provider_down (post_transcribe body_callback) 0 s_empty)))
     = jobs s_empty.
Proof.
  assert (Hu : uneventful [(3600000, [])]) by (by repeat constructor).
  split; [reflexivity|]. split; [reflexivity|]. split; [reflexivity|].
  split; [exact (sample_alone settle_provider_down)|].
  split; [exact Hu|]. split; [discriminate|].
  refine (proj2 (proj2 (registry_restored_after_eviction w_provider_down body_callback 0
                          s_empty [(3600000, [])] eq_refl eq_refl eq_refl
                          (sample_alone settle_provider_down) Hu)) _).
  discriminate.
Defined.

Lemma health_activeJobs registry ts :
  prop (health registry ts) "activeJobs" = VNum (Z.of_nat (size registry)).
Proof. reflexivity. Qed.

(** X16.  The health check counts records, not running jobs.  In a process
    that handles nothing but one job-creation request with a url and a
    fresh id, and that has no timer pending: when the pipeline has finished
    and the job's record is terminal, the health check reports as
    activeJobs one more than before the request; it answers the same as
    long as less than 3600000 ms have elapsed; and once 3600000 ms have
    elapsed it answers as it would have before the request. *)
Theorem health_counts_finished_jobs w body n s periods ts :
  truthy (prop body "url") = true ->
  jobs s !! job_id w n = None ->
  timers s = [] ->
  alone w ->
  uneventful periods ->
  let r := run w (post_transcribe body) n s in
  holds (fun p => terminal p = true) (jobs (final r) !! job_id w n)
  /\ prop (health (jobs (final r)) ts) "activeJobs" = VNum (Z.of_nat (size (jobs s)) + 1)
  /\ (elapsed periods < retention ->
      health (jobs (idle periods (final r))) ts = health (jobs (final r)) ts)
  /\ (retention <= elapsed periods ->
      health (jobs (idle periods (final r))) ts = health (jobs s) ts).
Proof.
  intros Hurl Hnone Htimers Halone Hidle. cbn zeta.
  destruct (registry_over_lifetime w body n s periods Hurl Hnone Htimers Halone Hidle)
    as ((p & Hterm & Hfin) & Hbefore & Hafter).
  cbn zeta in Hfin, Hbefore, Hafter.
  split; [|split; [|split]].
  - rewrite Hfin, lookup_insert_eq. exact Hterm.
  - rewrite health_activeJobs, Hfin, map_size_insert_None by done.
    by rewrite Nat2Z.inj_succ.
  - intros Hlt. by rewrite Hbefore.
  - intros Hge. by rewrite Hafter.
Qed.

Lemma health_counts_finished_jobs_witness :
  truthy (prop body_callback "url") = true
  /\ jobs s_empty !! job_id w_provider_down 0 = None
  /\ timers s_empty = []
  /\ alone w_provider_down
  /\ uneventful [(1000, [])]
  /\ prop (health (jobs (final (run w_provider_down (post_transcribe body_callback) 0 s_empty)))
             "2023-11-14T23:00:00.000Z") "activeJobs"
     = VNum 1.
Proof.
  assert (Hu : uneventful [(1000, [])]) by (by repeat constructor).
  split; [reflexivity|]. split; [reflexivity|]. split; [reflexivity|].
  split; [exact (sample_alone settle_provider_down)|].
  split; [exact Hu|].
  exact (proj1 (proj2 (health_counts_finished_jobs w_provider_down body_callback 0
                         s_empty [(1000, [])] "2023-11-14T23:00:00.000Z"
                         eq_refl eq_refl eq_refl
                         (sample_alone settle_provider_down) Hu))).
Defined.
